(** * The abstract maker contract of the packaging framework

    A shallow embedding of the [Maker] base class (the maker contract and its
    shared lifecycle helpers) together with the properties its specification
    states about it.

    Conventions of the embedding:
    - a JavaScript string is a Rocq [string]: the sequence of the bytes of its
      UTF-8 encoding;
    - a call that may throw returns a [completion]; for an [async] method
      [Throw] stands for the rejected promise and [Normal] for the fulfilled
      one;
    - the mutable instance and the file system are threaded explicitly. *)

From stdpp Require Import base option list strings gmap fin_maps.
Import (notations) Stdlib.Strings.Ascii.

Set Warnings "-register-all".

(** ** Completions and JavaScript values *)

Inductive completion (E A : Type) : Type :=
| Normal (a : A)
| Throw (e : E).
Arguments Normal {E A} a.
Arguments Throw {E A} e.

(** A function object is known by its identity; what calling it does is
    given separately (see [Functions] below), since a function called as a
    method can read and change the object it is called on. *)
Definition FunctionRef : Type := nat.

(** The fragment of the JavaScript value universe a configuration value or a
    thrown value can belong to.  [JsError msg] is the object built by
    [new Error(msg)]. *)
Inductive JsValue : Type :=
| JsUndefined
| JsBoolean (b : bool)
| JsString (s : string)
| JsObject (props : list (string * JsValue))
| JsError (message : string)
| JsFunction (ref : FunctionRef).

Abbreviation result := (completion JsValue).

(** The [typeof] operator. *)
Definition typeof (v : JsValue) : string :=
  match v with
  | JsUndefined => "undefined"
  | JsBoolean _ => "boolean"
  | JsString _ => "string"
  | JsObject _ => "object"
  | JsError _ => "object"
  | JsFunction _ => "function"
  end.

(** [ForgePlatform] and [ForgeArch] are declared in
    [@electron-forge/shared-types] as unions of string literals. *)
Definition ForgePlatform : Type := string.
Definition ForgeArch : Type := string.

(** ** String helpers *)

(** [String.prototype.includes]. *)
Fixpoint includes (hay needle : string) : bool :=
  String.prefix needle hay ||
  match hay with
  | EmptyString => false
  | String _ rest => includes rest needle
  end.

(** [Array.prototype.join] on an array of strings. *)
Definition join (sep : string) (xs : list string) : string := String.concat sep xs.

(** ** The maker *)

Record MakerOptions : Type := {
  dir : string;
  makeDir : string;
  appName : string;
  targetPlatform : ForgePlatform;
  targetArch : ForgeArch;
  forgeConfig : JsValue;
  packageJSON : JsValue;
}.

(** What the prototype chain of an instance holds for a method of the base
    class: the base class's own function, or the function a concrete variant
    defines in its place.  The body of an overriding method receives what
    [super.method] would do on the same instance. *)
Inductive method (T : Type) : Type :=
| Inherited
| Overridden (body : T).
Arguments Inherited {T}.
Arguments Overridden {T} body.

Definition is_inherited {T} (m : method T) : bool :=
  match m with Inherited => true | Overridden _ => false end.

Definition isSupported_body : Type := result bool -> result bool.
Definition make_body : Type :=
  (MakerOptions -> result (list string)) -> MakerOptions -> result (list string).

(** A concrete variant: the members a subclass declares. *)
Record MakerClass : Type := {
  cls_name : string;
  cls_defaultPlatforms : list ForgePlatform;
  cls_requiredExternalBinaries : option (list string);
  cls_isSupportedOnCurrentPlatform : method isSupported_body;
  cls_make : method make_body;
}.

Record Maker : Type := {
  config : JsValue;
  name : string;
  defaultPlatforms : list ForgePlatform;
  requiredExternalBinaries : list string;
  isElectronForgeMaker : bool;
  configOrConfigFetcher : JsValue;
  platformsToMakeOn : option (list ForgePlatform);
  isSupportedOnCurrentPlatform_method : method isSupported_body;
  make_method : method make_body;
}.

(** What the functions of the program do when called as a method of a maker
    with a target architecture, [this.f(targetArch)]: the completion of the
    call and the maker as the call leaves it. *)
Definition Functions : Type :=
  FunctionRef -> Maker -> ForgeArch -> result JsValue * Maker.

(** Calling a value as a method of [this]: only functions are callable. *)
Definition js_call (functions : Functions) (f : JsValue) (this : Maker) (arg : ForgeArch)
  : result JsValue * Maker :=
  match f with
  | JsFunction ref => functions ref this arg
  | _ => (Throw (JsError "TypeError: value is not a function"), this)
  end.

(** The default parameter [configOrConfigFetcher = {} as C]: the default
    takes the place of an argument that is omitted and of one that is
    [undefined]. *)
Definition configOrConfigFetcher_parameter (argument : option JsValue) : JsValue :=
  match argument with
  | None => JsObject []
  | Some JsUndefined => JsObject []
  | Some value => value
  end.

(** [new Variant(configOrConfigFetcher, platformsToMakeOn)]: the field
    initialisers of the base class run first ([requiredExternalBinaries = []])
    and those of the variant replace them. *)
Definition new_Maker (cls : MakerClass)
    (configOrConfigFetcher : option JsValue)
    (platformsToMakeOn : option (list ForgePlatform)) : Maker :=
  {| config := JsUndefined;
     name := cls_name cls;
     defaultPlatforms := cls_defaultPlatforms cls;
     requiredExternalBinaries := default [] (cls_requiredExternalBinaries cls);
     isElectronForgeMaker := true;
     configOrConfigFetcher := configOrConfigFetcher_parameter configOrConfigFetcher;
     platformsToMakeOn := platformsToMakeOn;
     isSupportedOnCurrentPlatform_method := cls_isSupportedOnCurrentPlatform cls;
     make_method := cls_make cls |}.

(** Truthiness of an array: an array is an object, and every object is
    truthy, the empty array included. *)
Definition truthy_array {A} (a : list A) : bool := true.

(** The [platforms] getter.  [if (this.platformsToMakeOn)] tests the
    truthiness of an optional array; [undefined] is falsy. *)
Definition platforms (this : Maker) : list ForgePlatform :=
  match platformsToMakeOn this with
  | Some override => if truthy_array override then override else defaultPlatforms this
  | None => defaultPlatforms this
  end.

(** The getter as the specification words it: the override only when it is
    non-empty. *)
Definition platforms_spec (this : Maker) : list ForgePlatform :=
  match platformsToMakeOn this with
  | Some (p :: ps) => p :: ps
  | _ => defaultPlatforms this
  end.

(** [this.config = v]. *)
Definition set_config (this : Maker) (v : JsValue) : Maker :=
  {| config := v;
     name := name this;
     defaultPlatforms := defaultPlatforms this;
     requiredExternalBinaries := requiredExternalBinaries this;
     isElectronForgeMaker := isElectronForgeMaker this;
     configOrConfigFetcher := configOrConfigFetcher this;
     platformsToMakeOn := platformsToMakeOn this;
     isSupportedOnCurrentPlatform_method := isSupportedOnCurrentPlatform_method this;
     make_method := make_method this |}.

(** [prepareConfig]: returns the completion of the call and the instance as
    the call leaves it.  The stored function is called as a method of the
    instance, [this.configOrConfigFetcher(targetArch)], and what it returns is
    then assigned to [config] of the instance as the function left it. *)
Definition prepareConfig (functions : Functions) (this : Maker) (targetArch : ForgeArch)
  : result unit * Maker :=
  if String.eqb (typeof (configOrConfigFetcher this)) "function" then
    match js_call functions (configOrConfigFetcher this) this targetArch with
    | (Normal v, this') => (Normal tt, set_config this' v)
    | (Throw e, this') => (Throw e, this')
    end
  else (Normal tt, set_config this (configOrConfigFetcher this)).

(** The body of the base class for [isSupportedOnCurrentPlatform]; the test
    [this.isSupportedOnCurrentPlatform === Maker.prototype.isSupportedOnCurrentPlatform]
    holds when the instance's prototype chain resolves the method to the base
    class's own function. *)
Definition Maker_prototype_isSupportedOnCurrentPlatform (this : Maker) : result bool :=
  if is_inherited (isSupportedOnCurrentPlatform_method this)
  then Throw (JsError ("Maker " +:+ name this +:+
                       " did not implement the isSupportedOnCurrentPlatform method"))
  else Normal true.

(** The body of the base class for [make]. *)
Definition Maker_prototype_make (this : Maker) (opts : MakerOptions)
  : result (list string) :=
  if is_inherited (make_method this)
  then Throw (JsError ("Maker " +:+ name this +:+ " did not implement the make method"))
  else Normal [].

(** Method calls on an instance, resolved through its prototype chain. *)
Definition isSupportedOnCurrentPlatform (this : Maker) : result bool :=
  match isSupportedOnCurrentPlatform_method this with
  | Inherited => Maker_prototype_isSupportedOnCurrentPlatform this
  | Overridden body => body (Maker_prototype_isSupportedOnCurrentPlatform this)
  end.

Definition make (this : Maker) (opts : MakerOptions) : result (list string) :=
  match make_method this with
  | Inherited => Maker_prototype_make this opts
  | Overridden body => body (Maker_prototype_make this) opts
  end.

(** ** External binaries

    [which.sync(binary, { nothrow: true })] is the search-path collaborator:
    it answers with the resolved path, or with [null] (here [None]) when the
    binary is not found, and does not throw. *)
Section DependencyValidator.
Variable which_sync : string -> option string.

Definition not_null {A} (v : option A) : bool :=
  match v with
  | Some _ => true
  | None => false
  end.

Definition externalBinariesExist (this : Maker) : bool :=
  forallb (fun binary => not_null (which_sync binary)) (requiredExternalBinaries this).

Definition ensureExternalBinariesExist (this : Maker) : result unit :=
  if negb (externalBinariesExist this)
  then Throw (JsError ("Cannot make for " +:+ name this +:+
                       ", the following external binaries need to be installed: " +:+
                       join ", " (requiredExternalBinaries this)))
  else Normal tt.
End DependencyValidator.

(** ** Module loading

    [require] is the module-loading collaborator of the runtime: loading a
    module may change the state of the loader (its cache) and either yields the
    module's exports or throws. *)
Section ModuleLoading.
Variable Loader : Type.
Variable require : string -> Loader -> result JsValue * Loader.

(** [try { body } catch (e) { handler }]. *)
Definition try_catch {A} (body : Loader -> result A * Loader)
    (handler : JsValue -> Loader -> result A * Loader)
  : Loader -> result A * Loader :=
  fun w =>
    match body w with
    | (Normal a, w') => (Normal a, w')
    | (Throw e, w') => handler e w'
    end.

Definition isInstalled (module : string) : Loader -> result bool * Loader :=
  try_catch
    (fun w =>
       match require module w with
       | (Normal _, w') => (Normal true, w')
       | (Throw e, w') => (Throw e, w')
       end)
    (fun _ w => (Normal false, w)).
End ModuleLoading.

(** ** Windows version numbers *)

Definition LF : string := String (Ascii.ascii_of_nat 10) "".
Definition CR : string := String (Ascii.ascii_of_nat 13) "".
(** U+2028 LINE SEPARATOR and U+2029 PARAGRAPH SEPARATOR, in UTF-8. *)
Definition LS : string :=
  String (Ascii.ascii_of_nat 226) (String (Ascii.ascii_of_nat 128) (String (Ascii.ascii_of_nat 168) "")).
Definition PS : string :=
  String (Ascii.ascii_of_nat 226) (String (Ascii.ascii_of_nat 128) (String (Ascii.ascii_of_nat 169) "")).

(** Does a line terminator start here?  These are the characters the regular
    expression atom [.] does not match. *)
Definition at_line_terminator (s : string) : bool :=
  String.prefix LF s || String.prefix CR s || String.prefix LS s || String.prefix PS s.

(** What is left of [s] after the greedy [.*] has matched at its start. *)
Fixpoint after_dot_star (s : string) : string :=
  match s with
  | EmptyString => EmptyString
  | String _ rest => if at_line_terminator s then s else after_dot_star rest
  end.

(** [s.replace(/-.*/, '')]: the pattern has no [g] flag, so only the leftmost
    match is replaced; it starts at the first ['-']. *)
Fixpoint replace_prerelease (s : string) : string :=
  match s with
  | EmptyString => EmptyString
  | String c rest =>
      if Ascii.eqb c "-"%char then after_dot_star rest
      else String c (replace_prerelease rest)
  end.

Definition normalizeWindowsVersion (version : string) : string :=
  let noPrerelease := replace_prerelease version in
  noPrerelease +:+ ".0".

(** Is there a line terminator somewhere in [s]? *)
Fixpoint has_line_terminator (s : string) : bool :=
  at_line_terminator s ||
  match s with
  | EmptyString => false
  | String _ rest => has_line_terminator rest
  end.

(** Is there a ['-'] somewhere in [s]? *)
Fixpoint has_dash (s : string) : bool :=
  match s with
  | EmptyString => false
  | String c rest => Ascii.eqb c "-"%char || has_dash rest
  end.

(** ** The file system *)

(** Modelled from the spec: the filesystem collaborator ([fs-extra]'s
    [pathExists], [remove] and [mkdirs]) and [path.dirname] are not part of
    the repository; the specification asks of them an existence check, a
    recursive remove and a recursive directory creation.

    A path is the list of its segments below the root, already resolved.  The
    file system maps each path that exists to what is there; the root is a
    directory that always exists and has no entry of its own. *)
Inductive node : Type :=
| File
| Directory.

Global Instance node_eq_dec : EqDecision node.
Proof. solve_decision. Defined.

Abbreviation path := (list string).
Abbreviation FileSystem := (gmap (list string) node).

Definition stat (fs : FileSystem) (p : path) : option node :=
  match p with
  | [] => Some Directory
  | _ => fs !! p
  end.

(** Modelled from the spec: [path.dirname]; the root is its own parent. *)
Definition dirname (p : path) : path := take (length p - 1) p.

(** Every entry lies in a directory: the invariant of a file system. *)
Definition wf (fs : FileSystem) : Prop :=
  map_Forall (fun p _ => p ≠ [] ∧ stat fs (dirname p) = Some Directory) fs.

Global Instance wf_dec fs : Decision (wf fs).
Proof. unfold wf. apply _. Defined.


(** Computations on the file system: the completion and the file system the
    call leaves behind. *)
Definition IO (A : Type) : Type := FileSystem -> result A * FileSystem.

Global Instance IO_ret : MRet IO := fun A a fs => (Normal a, fs).

Global Instance IO_bind : MBind IO := fun A B k m fs =>
  match m fs with
  | (Normal a, fs') => k a fs'
  | (Throw e, fs') => (Throw e, fs')
  end.

(** Modelled from the spec: [fs.pathExists], the existence check; it never
    rejects. *)
Definition pathExists (p : path) : IO bool :=
  fun fs => (Normal (bool_decide (is_Some (stat fs p))), fs).

(** Modelled from the spec: [fs.remove], the recursive remove.  It removes a
    file, or a directory with everything below it; a path that does not exist
    is not an error.  The root cannot be removed. *)
Definition remove (p : path) : IO unit :=
  fun fs =>
    match p with
    | [] => (Throw (JsError "EBUSY: resource busy or locked, rmdir"), fs)
    | _ => (Normal tt, filter (fun entry => ¬ p `prefix_of` entry.1) fs)
    end.

(** Modelled from the spec: [fs.mkdirs], the recursive directory creation.
    It creates the directory and every missing parent, from the root
    downwards; a segment that exists as a file is an error, [EEXIST] for the
    last segment and [ENOTDIR] for a parent. *)
Fixpoint mkdirs_from (done todo : path) (fs : FileSystem) : result unit * FileSystem :=
  match todo with
  | [] => (Normal tt, fs)
  | segment :: rest =>
      let p := done ++ [segment] in
      match fs !! p with
      | Some File =>
          (Throw (JsError (match rest with
                           | [] => "EEXIST: file already exists, mkdir"
                           | _ => "ENOTDIR: not a directory, mkdir"
                           end)), fs)
      | Some Directory => mkdirs_from p rest fs
      | None => mkdirs_from p rest (<[p := Directory]> fs)
      end
  end.

Definition mkdirs (p : path) : IO unit := mkdirs_from [] p.

(** ** Staging helpers *)

Definition ensureDirectory (dir : path) : IO unit :=
  found ← pathExists dir;
  (if found : bool then remove dir else mret tt);;
  mkdirs dir.

Definition ensureFile (file : path) : IO unit :=
  found ← pathExists file;
  (if found : bool then remove file else mret tt);;
  mkdirs (dirname file);;
  mret tt.

(** ** Specification-side definitions and sample inputs *)

(** The completion [r] is a thrown [Error] whose message includes the name of
    the maker and the name of the method. *)
Definition raises_ContractViolation {A} (r : result A) (this : Maker) (meth : string) : Prop :=
  ∃ msg, r = Throw (JsError msg) ∧
         includes msg (name this) = true ∧ includes msg meth = true.

Definition zip_class : MakerClass :=
  {| cls_name := "zip";
     cls_defaultPlatforms := ["darwin"; "linux"];
     cls_requiredExternalBinaries := None;
     cls_isSupportedOnCurrentPlatform := Inherited;
     cls_make := Inherited |}.

Definition sample_options : MakerOptions :=
  {| dir := "/app/out/app-linux-x64";
     makeDir := "/app/out/make";
     appName := "app";
     targetPlatform := "linux";
     targetArch := "x64";
     forgeConfig := JsObject [];
     packageJSON := JsObject [("name", JsString "app")] |}.

(** The message of the error [ensureExternalBinariesExist] throws. *)
Definition MissingDependency_message (this : Maker) : string :=
  "Cannot make for " +:+ name this +:+
  ", the following external binaries need to be installed: " +:+
  join ", " (requiredExternalBinaries this).

Definition installer_class : MakerClass :=
  {| cls_name := "installer";
     cls_defaultPlatforms := ["linux"];
     cls_requiredExternalBinaries := Some ["toolA"; "toolB"];
     cls_isSupportedOnCurrentPlatform := Overridden (fun _ => Normal true);
     cls_make := Overridden (fun _ opts => Normal [makeDir opts +:+ "/installer.bin"]) |}.

(** A search path on which only [toolA] resolves. *)
Definition only_toolA (binary : string) : option string :=
  if String.eqb binary "toolA" then Some "/usr/bin/toolA" else None.

(** The configuration source as the specification words it: a tagged union;
    a factory is a function object. *)
Inductive ConfigSource : Type :=
| Static (value : JsValue)
| Factory (factory : FunctionRef).

(** What the constructor receives for a source: the class has a single
    untagged field for both. *)
Definition supplied (source : ConfigSource) : JsValue :=
  match source with
  | Static value => value
  | Factory factory => JsFunction factory
  end.

(** Two instances agree on every field but [config]. *)
Definition same_but_config (a b : Maker) : Prop :=
  name a = name b ∧
  defaultPlatforms a = defaultPlatforms b ∧
  requiredExternalBinaries a = requiredExternalBinaries b ∧
  isElectronForgeMaker a = isElectronForgeMaker b ∧
  configOrConfigFetcher a = configOrConfigFetcher b ∧
  platformsToMakeOn a = platformsToMakeOn b ∧
  isSupportedOnCurrentPlatform_method a = isSupportedOnCurrentPlatform_method b ∧
  make_method a = make_method b.

Definition constant_factory : ForgeArch -> result JsValue :=
  fun _ => Normal (JsObject [("bin", JsString "app")]).

(** A factory that answers per architecture and fails on one it does not
    know. *)
Definition per_arch_factory (arch : ForgeArch) : result JsValue :=
  if String.eqb arch "x64" then Normal (JsObject [("bits", JsString "64")])
  else if String.eqb arch "ia32" then Normal (JsObject [("bits", JsString "32")])
  else Throw (JsError "unsupported architecture").

(** The functions of a sample program: [0] is [constant_factory], [1] is
    [per_arch_factory], neither of which uses the maker it is called on; [2]
    reads the name of the maker and what [config] currently holds, and sets
    the maker's required binaries. *)
Definition sample_functions : Functions :=
  fun ref this arch =>
    match ref with
    | 0 => (constant_factory arch, this)
    | 1 => (per_arch_factory arch, this)
    | 2 => (Normal (JsObject [("maker", JsString (name this));
                              ("arch", JsString arch);
                              ("previous", config this)]),
            {| config := config this;
               name := name this;
               defaultPlatforms := defaultPlatforms this;
               requiredExternalBinaries := ["tool-" +:+ arch];
               isElectronForgeMaker := isElectronForgeMaker this;
               configOrConfigFetcher := configOrConfigFetcher this;
               platformsToMakeOn := platformsToMakeOn this;
               isSupportedOnCurrentPlatform_method := isSupportedOnCurrentPlatform_method this;
               make_method := make_method this |})
    | _ => (Throw (JsError "TypeError: not a function"), this)
    end.

(** A variant that overrides [make] and leaves [isSupportedOnCurrentPlatform]
    to the base class. *)
Definition mixed_class : MakerClass :=
  {| cls_name := "mixed";
     cls_defaultPlatforms := ["win32"];
     cls_requiredExternalBinaries := None;
     cls_isSupportedOnCurrentPlatform := Inherited;
     cls_make := Overridden (fun _ opts => Normal [makeDir opts +:+ "/mixed.bin"]) |}.

(** A loader that knows one module, fails to find another and hits a fault
    while evaluating a third. *)
Definition sample_require (module : string) (cache : list string)
  : result JsValue * list string :=
  if String.eqb module "fs-extra" then (Normal (JsObject []), module :: cache)
  else if String.eqb module "broken-native-addon"
       then (Throw (JsError "invalid ELF header"), cache)
       else (Throw (JsError ("Cannot find module '" +:+ module +:+ "'")), cache).

(** The text before the first ['-']. *)
Fixpoint before_dash (s : string) : string :=
  match s with
  | EmptyString => EmptyString
  | String c rest =>
      if Ascii.eqb c "-"%char then EmptyString else String c (before_dash rest)
  end.

(** [normalizeWindowsVersion] as the specification words it: everything from
    the first ['-'] to the end of the string is dropped. *)
Definition normalizeWindowsVersion_spec (version : string) : string :=
  before_dash version +:+ ".0".

(** [if (await fs.pathExists(p)) { await fs.remove(p); }] *)
Definition reset (p : path) (fs : FileSystem) : result unit * FileSystem :=
  if bool_decide (is_Some (stat fs p)) then remove p fs else (Normal tt, fs).

(** A staging area with the output of an earlier run in it. *)
Definition sample_fs : FileSystem :=
  <[ ["out"; "make"; "zip"; "app.zip"] := File ]>
  (<[ ["out"; "make"; "zip"] := Directory ]>
  (<[ ["out"; "make"] := Directory ]>
  (<[ ["out"] := Directory ]> ∅))).

(** ** More on version strings *)

(** How many times the character [c] occurs in [s]. *)
Fixpoint count_char (c : Ascii.ascii) (s : string) : nat :=
  match s with
  | EmptyString => 0
  | String c' rest => (if Ascii.eqb c' c then 1 else 0) + count_char c rest
  end.

(** ** The build-tool plugins

    [packages/plugin/vite/src/util/plugins.ts]: the two plugins handed to the
    bundler.  A plugin is an object of hooks the bundler calls; the hooks are
    modelled as functions on what they mutate. *)
Module VitePlugin.

(** An entry of the bundler's [external] option: a module id or a regular
    expression, the latter taken as the test it performs on an id. *)
Inductive ExternalItem : Type :=
| ItemString (id : string)
| ItemRegExp (test : string -> bool).

(** The [external] option: absent, a single entry, an array of entries, or a
    function of the id, the importer and whether the id is resolved, which
    answers with a boolean or with nothing. *)
Inductive ExternalOption : Type :=
| ExternalAbsent
| ExternalString (id : string)
| ExternalRegExp (test : string -> bool)
| ExternalArray (items : list ExternalItem)
| ExternalFunction (f : string -> option string -> bool -> option bool).

Record RollupOptions : Type := {
  external : ExternalOption;
  rollup_rest : list (string * JsValue);
}.

Record BuildOptions : Type := {
  rollupOptions : option RollupOptions;
  build_rest : list (string * JsValue);
}.

Record UserConfig : Type := {
  build : option BuildOptions;
  config_rest : list (string * JsValue);
}.

(** [builtinModules.filter((e) => !e.startsWith('_'))], for the
    [builtinModules] of the running Node.js. *)
Definition nativeModules (builtinModules : list string) : list string :=
  List.filter (fun e => negb (String.prefix "_" e)) builtinModules.

(** [['electron', ...nativeModules, ...nativeModules.map((m) => `node:${m}`)]] *)
Definition builtins (builtinModules : list string) : list string :=
  "electron" :: nativeModules builtinModules ++
  List.map (fun m => "node:" +:+ m) (nativeModules builtinModules).

(** [Array.prototype.includes] on an array of strings. *)
Definition array_includes (xs : list string) (x : string) : bool :=
  existsb (String.eqb x) xs.

(** The [config] hook of [externalBuiltins()]: it mutates the configuration
    it is given; the result is the configuration after the call. *)
Definition externalBuiltins_config (builtinModules : list string) (config : UserConfig)
  : UserConfig :=
  let builtins := builtins builtinModules in
  (* config.build ??= {}; config.build.rollupOptions ??= {}; *)
  let build := default {| rollupOptions := None; build_rest := [] |} (build config) in
  let options := default {| external := ExternalAbsent; rollup_rest := [] |}
                   (rollupOptions build) in
  let external :=
    match external options with
    | ExternalArray items => ExternalArray (List.map ItemString builtins ++ items)
    | ExternalString id => ExternalArray (List.map ItemString builtins ++ [ItemString id])
    | ExternalRegExp test => ExternalArray (List.map ItemString builtins ++ [ItemRegExp test])
    | ExternalFunction original =>
        ExternalFunction (fun source importer isResolved =>
          if array_includes builtins source then Some true
          else original source importer isResolved)
    | ExternalAbsent => ExternalArray (List.map ItemString builtins)
    end in
  {| build := Some {| rollupOptions := Some {| external := external;
                                               rollup_rest := rollup_rest options |};
                      build_rest := build_rest build |};
     config_rest := config_rest config |}.

(** [config.build?.rollupOptions?.external] *)
Definition external_of (config : UserConfig) : ExternalOption :=
  match build config with
  | Some b =>
      match rollupOptions b with
      | Some o => external o
      | None => ExternalAbsent
      end
  | None => ExternalAbsent
  end.

(** How the bundler reads the option: an id is kept out of the bundle when it
    is one of the strings, matches one of the regular expressions, or the
    function answers [true] for it. *)
Definition item_matches (item : ExternalItem) (source : string) : bool :=
  match item with
  | ItemString id => String.eqb id source
  | ItemRegExp test => test source
  end.

Definition externalises (e : ExternalOption)
    (source : string) (importer : option string) (isResolved : bool) : bool :=
  match e with
  | ExternalAbsent => false
  | ExternalString id => String.eqb id source
  | ExternalRegExp test => test source
  | ExternalArray items => existsb (fun item => item_matches item source) items
  | ExternalFunction f =>
      match f source importer isResolved with
      | Some true => true
      | _ => false
      end
  end.

(** *** [hotRestart] *)

(** What the plugin reads of the bundler's resolved configuration. *)
Record ResolvedConfig : Type := { mode : string }.

(** What the process's standard input has been made to emit so far:
    [process.stdin.emit(event, data)], oldest first. *)
Abbreviation Stdin := (list (string * string)).

(** [process.stdin.emit('data', 'rs')] *)
Definition restart (stdin : Stdin) : Stdin := stdin ++ [("data", "rs")].

(** The [restart] option as the plugin tells its values apart: [false], a
    function, which is handed the [restart] action, or anything else
    ([undefined] when the option is not set). *)
Inductive RestartOption : Type :=
| RestartFalse
| RestartFunction (callback : (Stdin -> Stdin) -> Stdin -> result unit * Stdin)
| RestartOther.

(** The variables the hooks of one plugin close over. *)
Record Closure : Type := {
  config : option ResolvedConfig;
  isFirstStart : bool;
}.

(** [let config; let isFirstStart = false;] *)
Definition hotRestart : Closure := {| config := None; isFirstStart := false |}.

Definition configResolved (_config : ResolvedConfig) (c : Closure) : Closure :=
  {| config := Some _config; isFirstStart := isFirstStart c |}.

Definition closeBundle (options : RestartOption) (c : Closure) (stdin : Stdin)
  : result unit * (Closure * Stdin) :=
  match config c with
  | None =>
      (* config.mode on a variable that is still undefined *)
      (Throw (JsError "TypeError: Cannot read properties of undefined (reading 'mode')"),
       (c, stdin))
  | Some resolved =>
      if String.eqb (mode resolved) "production" then (Normal tt, (c, stdin))
      else
        match options with
        | RestartFalse => (Normal tt, (c, stdin))
        | _ =>
            if negb (isFirstStart c)
            then (Normal tt, ({| config := config c; isFirstStart := true |}, stdin))
            else
              match options with
              | RestartFunction callback =>
                  let (r, stdin') := callback restart stdin in (r, (c, stdin'))
              | _ => (Normal tt, (c, restart stdin))
              end
        end
  end.

(** What the bundler does to a plugin. *)
Inductive Event : Type :=
| ConfigResolved (_config : ResolvedConfig)
| CloseBundle.

(** The hooks called in sequence; a hook that throws ends the run. *)
Fixpoint run (options : RestartOption) (events : list Event) (c : Closure) (stdin : Stdin)
  : result unit * (Closure * Stdin) :=
  match events with
  | [] => (Normal tt, (c, stdin))
  | ConfigResolved _config :: rest => run options rest (configResolved _config c) stdin
  | CloseBundle :: rest =>
      match closeBundle options c stdin with
      | (Normal _, (c', stdin')) => run options rest c' stdin'
      | (Throw e, after) => (Throw e, after)
      end
  end.

(** The number of [closeBundle] calls of a run that happen while the resolved
    mode is not ["production"]. *)
Fixpoint development_builds (resolved : ResolvedConfig) (events : list Event) : nat :=
  match events with
  | [] => 0
  | ConfigResolved _config :: rest => development_builds _config rest
  | CloseBundle :: rest =>
      (if String.eqb (mode resolved) "production" then 0 else 1)
      + development_builds resolved rest
  end.

(** Sample inputs: a callback that restarts twice, and a watch session in
    which a production build comes between development builds. *)
Definition restart_twice : (Stdin -> Stdin) -> Stdin -> result unit * Stdin :=
  fun restart stdin => (Normal tt, restart (restart stdin)).

Definition development : ResolvedConfig := {| mode := "development" |}.
Definition production : ResolvedConfig := {| mode := "production" |}.

Definition sample_session : list Event :=
  [CloseBundle; CloseBundle; ConfigResolved production; CloseBundle;
   ConfigResolved development; CloseBundle].

End VitePlugin.

(** * Properties *)

(** ** Strings *)

Lemma append_cons (c : Ascii.ascii) (a b : string) :
  String c a +:+ b = String c (a +:+ b).
Proof. reflexivity. Qed.

Lemma prefix_append (s t : string) : String.prefix s (s +:+ t) = true.
Proof.
  induction s as [|c s IH]; simpl.
  - by destruct t.
  - by destruct (Ascii.ascii_dec c c).
Qed.

Lemma includes_prefix (hay needle : string) :
  String.prefix needle hay = true → includes hay needle = true.
Proof. intros H. destruct hay; cbn [includes]; by rewrite H. Qed.

Lemma includes_append_r (a hay needle : string) :
  includes hay needle = true → includes (a +:+ hay) needle = true.
Proof.
  intros H. induction a as [|c a IH]; [done|].
  rewrite append_cons. cbn [includes]. rewrite IH. apply orb_true_r.
Qed.

(** A string includes each of the pieces it is concatenated from. *)
Lemma includes_middle (a s b : string) : includes (a +:+ s +:+ b) s = true.
Proof. apply includes_append_r, includes_prefix, prefix_append. Qed.

Lemma prefix_refl (s : string) : String.prefix s s = true.
Proof.
  induction s as [|c s IH]; simpl; [done|].
  by destruct (Ascii.ascii_dec c c).
Qed.

Lemma append_assoc (a b c : string) : (a +:+ b) +:+ c = a +:+ b +:+ c.
Proof. induction a as [|x a IH]; [done|]. by rewrite !append_cons, IH. Qed.

(** ** Contract enforcement *)

Lemma base_isSupported_inherited (this : Maker) :
  isSupportedOnCurrentPlatform_method this = Inherited →
  raises_ContractViolation (Maker_prototype_isSupportedOnCurrentPlatform this)
    this "isSupportedOnCurrentPlatform".
Proof.
  intros H. unfold Maker_prototype_isSupportedOnCurrentPlatform. rewrite H. simpl.
  eexists. split; [done|]. split.
  - apply (includes_middle "Maker ").
  - by do 2 apply includes_append_r.
Qed.

Lemma base_make_inherited (this : Maker) (opts : MakerOptions) :
  make_method this = Inherited →
  raises_ContractViolation (Maker_prototype_make this opts) this "make".
Proof.
  intros H. unfold Maker_prototype_make. rewrite H. simpl.
  eexists. split; [done|]. split.
  - apply (includes_middle "Maker ").
  - by do 2 apply includes_append_r.
Qed.

Lemma base_isSupported_overridden (this : Maker) body :
  isSupportedOnCurrentPlatform_method this = Overridden body →
  Maker_prototype_isSupportedOnCurrentPlatform this = Normal true.
Proof. intros H. unfold Maker_prototype_isSupportedOnCurrentPlatform. by rewrite H. Qed.

Lemma base_make_overridden (this : Maker) (opts : MakerOptions) body :
  make_method this = Overridden body →
  Maker_prototype_make this opts = Normal [].
Proof. intros H. unfold Maker_prototype_make. by rewrite H. Qed.

(** C1. On every maker instance, and for each of [make] and
    [isSupportedOnCurrentPlatform] on its own: the base-class check raises the
    contract violation (an error whose message includes the instance's name
    and the method's name) if and only if the variant did not override that
    method; calling a method that is not overridden raises exactly that
    error; calling a method that is overridden, whether or not the other one
    is, runs the overriding body, for which the base body (reached through
    [super]) completes normally, so that such a call raises a contract
    violation only if the overriding body itself throws one. *)
Theorem C1_contract_violation_iff_not_overridden (this : Maker) (opts : MakerOptions) :
  (raises_ContractViolation (Maker_prototype_make this opts) this "make"
     ↔ make_method this = Inherited) ∧
  (raises_ContractViolation (Maker_prototype_isSupportedOnCurrentPlatform this) this
     "isSupportedOnCurrentPlatform"
     ↔ isSupportedOnCurrentPlatform_method this = Inherited) ∧
  (make_method this = Inherited →
     raises_ContractViolation (make this opts) this "make" ∧
     make this opts =
       Throw (JsError ("Maker " +:+ name this +:+ " did not implement the make method"))) ∧
  (isSupportedOnCurrentPlatform_method this = Inherited →
     raises_ContractViolation (isSupportedOnCurrentPlatform this) this
       "isSupportedOnCurrentPlatform" ∧
     isSupportedOnCurrentPlatform this =
       Throw (JsError ("Maker " +:+ name this +:+
                       " did not implement the isSupportedOnCurrentPlatform method"))) ∧
  (∀ make',
     make_method this = Overridden make' →
     Maker_prototype_make this opts = Normal [] ∧
     make this opts = make' (fun _ => Normal []) opts) ∧
  (∀ supported',
     isSupportedOnCurrentPlatform_method this = Overridden supported' →
     Maker_prototype_isSupportedOnCurrentPlatform this = Normal true ∧
     isSupportedOnCurrentPlatform this = supported' (Normal true)) ∧
  (raises_ContractViolation (make this opts) this "make" →
     make_method this = Inherited ∨
     ∃ make', make_method this = Overridden make' ∧
              raises_ContractViolation (make' (fun _ => Normal []) opts) this "make") ∧
  (raises_ContractViolation (isSupportedOnCurrentPlatform this) this
     "isSupportedOnCurrentPlatform" →
     isSupportedOnCurrentPlatform_method this = Inherited ∨
     ∃ supported', isSupportedOnCurrentPlatform_method this = Overridden supported' ∧
                   raises_ContractViolation (supported' (Normal true)) this
                     "isSupportedOnCurrentPlatform").
Proof.
  assert (∀ make', make_method this = Overridden make' →
            make this opts = make' (fun _ => Normal []) opts) as Hmake_call.
  { intros make' Hmake. unfold make. rewrite Hmake. f_equal.
    unfold Maker_prototype_make. by rewrite Hmake. }
  assert (∀ supported', isSupportedOnCurrentPlatform_method this = Overridden supported' →
            isSupportedOnCurrentPlatform this = supported' (Normal true)) as Hsup_call.
  { intros supported' Hsup. unfold isSupportedOnCurrentPlatform.
    by rewrite Hsup, (base_isSupported_overridden this _ Hsup). }
  split; [|split; [|split; [|split; [|split; [|split; [|split]]]]]].
  - split; [|apply base_make_inherited].
    intros (msg & Hr & _). unfold Maker_prototype_make in Hr.
    destruct (make_method this); [done | discriminate].
  - split; [|apply base_isSupported_inherited].
    intros (msg & Hr & _). unfold Maker_prototype_isSupportedOnCurrentPlatform in Hr.
    destruct (isSupportedOnCurrentPlatform_method this); [done | discriminate].
  - intros Hmake. unfold make. rewrite Hmake. split.
    + by apply base_make_inherited.
    + unfold Maker_prototype_make. by rewrite Hmake.
  - intros Hsup. unfold isSupportedOnCurrentPlatform. rewrite Hsup. split.
    + by apply base_isSupported_inherited.
    + unfold Maker_prototype_isSupportedOnCurrentPlatform. by rewrite Hsup.
  - intros make' Hmake. split; [by eapply base_make_overridden | by apply Hmake_call].
  - intros supported' Hsup.
    split; [by eapply base_isSupported_overridden | by apply Hsup_call].
  - intros Hraises. destruct (make_method this) as [|make'] eqn:Hmake; [by left|].
    right. exists make'. split; [done|]. by rewrite <- Hmake_call.
  - intros Hraises.
    destruct (isSupportedOnCurrentPlatform_method this) as [|supported'] eqn:Hsup;
      [by left|].
    right. exists supported'. split; [done|]. by rewrite <- Hsup_call.
Qed.

Lemma C1_contract_violation_witness :
  make (new_Maker zip_class None None) sample_options =
    Throw (JsError "Maker zip did not implement the make method") ∧
  make (new_Maker mixed_class None None) sample_options =
    Normal ["/app/out/make/mixed.bin"] ∧
  isSupportedOnCurrentPlatform (new_Maker mixed_class None None) =
    Throw (JsError "Maker mixed did not implement the isSupportedOnCurrentPlatform method").
Proof.
  split; [|split].
  - exact (proj2 (proj1 (proj2 (proj2
             (C1_contract_violation_iff_not_overridden
                (new_Maker zip_class None None) sample_options))) eq_refl)).
  - exact (proj2 (proj1 (proj2 (proj2 (proj2 (proj2
             (C1_contract_violation_iff_not_overridden
                (new_Maker mixed_class None None) sample_options))))) _ eq_refl)).
  - exact (proj2 (proj1 (proj2 (proj2 (proj2
             (C1_contract_violation_iff_not_overridden
                (new_Maker mixed_class None None) sample_options)))) eq_refl)).
Defined.

Example overriding_variant_runs_its_own_methods :
  make (new_Maker installer_class None None) sample_options
    = Normal ["/app/out/make/installer.bin"] ∧
  isSupportedOnCurrentPlatform (new_Maker installer_class None None) = Normal true ∧
  Maker_prototype_make (new_Maker installer_class None None) sample_options = Normal [].
Proof. by cbv. Qed.

(** ** Platform gate *)

(** C2, as stated, fails: an empty override sequence supplied at construction
    is returned as it is, not replaced by [defaultPlatforms]. *)
Lemma C2_empty_override_counterexample :
  let this := new_Maker zip_class None (Some []) in
  platformsToMakeOn this = Some [] ∧
  platforms this = [] ∧
  platforms this ≠ defaultPlatforms this ∧
  platforms this ≠ platforms_spec this.
Proof. by cbv. Qed.

(** C2 (amended). For every construction, [platforms] returns the override
    sequence exactly when one was supplied at construction, empty or not, and
    [defaultPlatforms] when none was supplied; the result is one of the two
    sequences, never a merge, and it agrees with the specification's wording
    whenever the supplied override is non-empty or absent. *)
Theorem C2_platforms_override_or_default
    (cls : MakerClass) (cfg : option JsValue) (override : option (list ForgePlatform)) :
  let this := new_Maker cls cfg override in
  platforms this =
    match override with
    | Some supplied => supplied
    | None => cls_defaultPlatforms cls
    end ∧
  (platforms this = defaultPlatforms this ∨ Some (platforms this) = override) ∧
  (override ≠ Some [] → platforms this = platforms_spec this).
Proof.
  destruct override as [[|p ps]|]; cbn; repeat split; auto; by intros [].
Qed.

Lemma C2_platforms_witness :
  platforms (new_Maker zip_class None (Some ["win32"])) = ["win32"] ∧
  platforms (new_Maker zip_class None None) = ["darwin"; "linux"].
Proof.
  split.
  - exact (proj1 (C2_platforms_override_or_default zip_class None (Some ["win32"]))).
  - exact (proj1 (C2_platforms_override_or_default zip_class None None)).
Defined.

(** ** External binaries *)

Lemma prefix_append_l (n a b : string) :
  String.prefix n a = true → String.prefix n (a +:+ b) = true.
Proof.
  revert a. induction n as [|c n IH]; intros a H.
  - by destruct (a +:+ b).
  - destruct a as [|c' a]; [done|].
    rewrite append_cons. simpl in *.
    destruct (Ascii.ascii_dec c c'); [by apply IH | done].
Qed.

Lemma includes_append_l (a b needle : string) :
  includes a needle = true → includes (a +:+ b) needle = true.
Proof.
  induction a as [|c a IH]; cbn [includes]; intros H.
  - rewrite orb_false_r in H. by apply includes_prefix, (prefix_append_l _ ""%string).
  - rewrite append_cons. cbn [includes].
    apply orb_true_iff in H as [H|H].
    + apply (prefix_append_l _ _ b) in H. rewrite append_cons in H. by rewrite H.
    + rewrite (IH H). apply orb_true_r.
Qed.

(** Every element of a joined array is included in the result. *)
Lemma includes_join (sep x : string) (xs : list string) :
  x ∈ xs → includes (join sep xs) x = true.
Proof.
  unfold join. induction xs as [|y ys IH]; intros Hin; [by apply elem_of_nil in Hin|].
  apply elem_of_cons in Hin as [->|Hin].
  - destruct ys; cbn [String.concat].
    + apply includes_prefix, prefix_refl.
    + apply includes_prefix, prefix_append.
  - destruct ys as [|z zs]; [by apply elem_of_nil in Hin|].
    cbn [String.concat]. by do 2 apply includes_append_r; apply IH.
Qed.

Lemma not_null_is_Some {A} (v : option A) : not_null v = true ↔ is_Some v.
Proof.
  destruct v; simpl; split; done.
Qed.

Lemma externalBinariesExist_Forall which_sync (this : Maker) :
  externalBinariesExist which_sync this = true ↔
  Forall (fun binary => is_Some (which_sync binary)) (requiredExternalBinaries this).
Proof.
  unfold externalBinariesExist.
  induction (requiredExternalBinaries this) as [|b bs IH]; simpl.
  - split; [constructor | done].
  - by rewrite andb_true_iff, IH, Forall_cons, not_null_is_Some.
Qed.

Lemma Exists_unresolved (which_sync : string -> option string) (binaries : list string) :
  ¬ Forall (fun binary => is_Some (which_sync binary)) binaries ↔
  Exists (fun binary : string => which_sync binary = None) binaries.
Proof.
  split.
  - intros HnF. apply not_Forall_Exists in HnF; [|apply _].
    eapply Exists_impl; [exact HnF|]. simpl. intros b Hb.
    destruct (which_sync b); [|done]. destruct Hb; eauto.
  - intros HE HF. apply Exists_exists in HE as (b & Hb & Hn).
    rewrite Forall_forall in HF. destruct (HF b Hb) as [? ?]. congruence.
Qed.

(** C3. For every maker instance and every outcome of the search-path lookup,
    [externalBinariesExist] (a total function to the booleans) answers true
    iff every required binary resolves, and [ensureExternalBinariesExist]
    throws the missing-dependency error iff some required binary does not
    resolve (and returns otherwise); the message of that error ends with all
    the configured names, in declaration order, joined by [", "], so that each
    configured name, resolved or not, is included in the message. *)
Theorem C3_external_binaries (which_sync : string -> option string) (this : Maker) :
  (externalBinariesExist which_sync this = true ↔
     Forall (fun binary => is_Some (which_sync binary)) (requiredExternalBinaries this)) ∧
  (ensureExternalBinariesExist which_sync this =
     Throw (JsError (MissingDependency_message this)) ↔
     Exists (fun binary => which_sync binary = None) (requiredExternalBinaries this)) ∧
  (ensureExternalBinariesExist which_sync this = Normal tt ↔
     Forall (fun binary => is_Some (which_sync binary)) (requiredExternalBinaries this)) ∧
  MissingDependency_message this =
    "Cannot make for " +:+ name this +:+
    ", the following external binaries need to be installed: " +:+
    String.concat ", " (requiredExternalBinaries this) ∧
  (∀ binary, binary ∈ requiredExternalBinaries this →
     includes (MissingDependency_message this) binary = true) ∧
  includes (MissingDependency_message this) (name this) = true.
Proof.
  pose proof (externalBinariesExist_Forall which_sync this) as HF.
  split; [done|]. rewrite <- Exists_unresolved, <- HF.
  split; [|split; [|split; [done|split]]].
  - unfold ensureExternalBinariesExist.
    by destruct (externalBinariesExist which_sync this); cbn [negb]; split.
  - unfold ensureExternalBinariesExist.
    by destruct (externalBinariesExist which_sync this); cbn [negb].
  - intros b Hb. unfold MissingDependency_message.
    by do 3 apply includes_append_r; apply includes_join.
  - apply (includes_middle "Cannot make for ").
Qed.

Lemma C3_external_binaries_witness :
  ensureExternalBinariesExist only_toolA (new_Maker installer_class None None) =
    Throw (JsError ("Cannot make for installer, the following external binaries " +:+
                    "need to be installed: toolA, toolB")) ∧
  includes (MissingDependency_message (new_Maker installer_class None None)) "toolA" = true.
Proof.
  pose proof (C3_external_binaries only_toolA (new_Maker installer_class None None))
    as (_ & Hthrow & _ & _ & Hincl & _).
  split.
  - apply Hthrow. apply Exists_cons_tl, Exists_cons_hd. reflexivity.
  - apply Hincl. constructor.
Defined.

(** C9. A maker whose [requiredExternalBinaries] is empty, which is what a
    variant that declares none gets, passes both checks whatever the search
    path resolves. *)
Theorem C9_no_required_binaries (which_sync : string -> option string) (this : Maker) :
  requiredExternalBinaries this = [] →
  externalBinariesExist which_sync this = true ∧
  ensureExternalBinariesExist which_sync this = Normal tt.
Proof.
  intros Hnone. unfold ensureExternalBinariesExist, externalBinariesExist.
  by rewrite Hnone.
Qed.

Lemma requiredExternalBinaries_default (cls : MakerClass) cfg override :
  cls_requiredExternalBinaries cls = None →
  requiredExternalBinaries (new_Maker cls cfg override) = [].
Proof. intros H. simpl. by rewrite H. Qed.

Lemma C9_no_required_binaries_witness :
  requiredExternalBinaries (new_Maker zip_class None None) = [] ∧
  externalBinariesExist (fun _ => None) (new_Maker zip_class None None) = true ∧
  ensureExternalBinariesExist (fun _ => None) (new_Maker zip_class None None) = Normal tt.
Proof.
  split; [reflexivity|].
  apply (C9_no_required_binaries (fun _ => None) (new_Maker zip_class None None)).
  reflexivity.
Defined.

(** ** Configuration *)

Lemma set_config_same (this : Maker) (v : JsValue) :
  same_but_config this (set_config this v) ∧ config (set_config this v) = v.
Proof. by repeat split. Qed.

Lemma prepareConfig_function (functions : Functions) (this : Maker) (arch : ForgeArch)
    (ref : FunctionRef) :
  configOrConfigFetcher this = JsFunction ref →
  prepareConfig functions this arch =
    match functions ref this arch with
    | (Normal v, this') => (Normal tt, set_config this' v)
    | (Throw e, this') => (Throw e, this')
    end.
Proof. intros H. unfold prepareConfig. by rewrite H. Qed.

Lemma prepareConfig_not_function (functions : Functions) (this : Maker) (arch : ForgeArch) :
  typeof (configOrConfigFetcher this) ≠ "function" →
  prepareConfig functions this arch
    = (Normal tt, set_config this (configOrConfigFetcher this)).
Proof.
  intros H. unfold prepareConfig.
  by destruct (configOrConfigFetcher this).
Qed.

Lemma parameter_not_function (value : JsValue) :
  typeof value ≠ "function" →
  typeof (configOrConfigFetcher_parameter (Some value)) ≠ "function".
Proof. by destruct value. Qed.

(** C4, as stated, fails: a static value that is itself a function is called,
    and [config] becomes what it returns, not the stored value; and a static
    value that is [undefined] is replaced by the constructor's default, so
    that [config] becomes the empty object. *)
Lemma C4_static_function_counterexample :
  (let this := new_Maker zip_class (Some (supplied (Static (JsFunction 0)))) None in
   configOrConfigFetcher this = JsFunction 0 ∧
   prepareConfig sample_functions this "x64" =
     (Normal tt, set_config this (JsObject [("bin", JsString "app")])) ∧
   config (prepareConfig sample_functions this "x64").2 ≠ JsFunction 0) ∧
  (let this := new_Maker zip_class (Some (supplied (Static JsUndefined))) None in
   config (prepareConfig sample_functions this "x64").2 = JsObject [] ∧
   config (prepareConfig sample_functions this "x64").2 ≠ JsUndefined).
Proof. by cbv. Qed.

(** C4 (amended). For every instance, fresh or already used, of a maker
    constructed with a given source, and for every architecture,
    [prepareConfig] itself changes no field of the instance but [config].
    When the source is a factory, the factory is called on the instance with
    the architecture; [config] becomes exactly what it returns, the other
    fields being as the factory left them, and an error thrown by the factory
    is the completion of the call, unmodified, [config] not being assigned.
    When the source is a static value that is not itself a function, [config]
    becomes that value, the same for every architecture, the empty object
    standing for a value that is [undefined]. *)
Theorem C4_prepareConfig (functions : Functions) (this : Maker) (source : ConfigSource)
    (arch : ForgeArch) :
  configOrConfigFetcher this = configOrConfigFetcher_parameter (Some (supplied source)) →
  (∀ cls override,
     configOrConfigFetcher (new_Maker cls (Some (supplied source)) override)
     = configOrConfigFetcher_parameter (Some (supplied source))) ∧
  match source with
  | Factory factory =>
      match functions factory this arch with
      | (Normal v, this') =>
          (prepareConfig functions this arch).1 = Normal tt ∧
          config (prepareConfig functions this arch).2 = v ∧
          same_but_config this' (prepareConfig functions this arch).2
      | (Throw e, this') =>
          prepareConfig functions this arch = (Throw e, this')
      end
  | Static value =>
      typeof value ≠ "function" →
      (∀ arch',
         (prepareConfig functions this arch').1 = Normal tt ∧
         config (prepareConfig functions this arch').2
           = configOrConfigFetcher_parameter (Some value) ∧
         same_but_config this (prepareConfig functions this arch').2) ∧
      (value ≠ JsUndefined → config (prepareConfig functions this arch).2 = value)
  end.
Proof.
  intros Hsource. split; [done|].
  destruct source as [value|factory]; simpl in Hsource.
  - intros Hnf.
    assert (∀ a, prepareConfig functions this a
                 = (Normal tt, set_config this (configOrConfigFetcher_parameter (Some value))))
      as Heq.
    { intros a. rewrite prepareConfig_not_function; rewrite Hsource; [done|].
      by apply parameter_not_function. }
    split.
    + intros arch'. rewrite Heq. split; [done|]. split; [done|]. apply set_config_same.
    + intros Hdef. rewrite Heq. by destruct value.
  - rewrite (prepareConfig_function functions this arch factory Hsource).
    destruct (functions factory this arch) as [[v|e] this']; [|done].
    split; [done|]. split; [done|]. apply set_config_same.
Qed.

Lemma C4_prepareConfig_witness :
  let fresh := new_Maker zip_class (Some (JsString "fixed")) None in
  let used := (prepareConfig sample_functions fresh "x64").2 in
  config (prepareConfig sample_functions used "arm64").2 = JsString "fixed" ∧
  let reading := new_Maker zip_class (Some (JsFunction 2)) None in
  let resolved := (prepareConfig sample_functions reading "x64").2 in
  config (prepareConfig sample_functions resolved "arm64").2
  = JsObject [("maker", JsString "zip"); ("arch", JsString "arm64");
              ("previous", JsObject [("maker", JsString "zip"); ("arch", JsString "x64");
                                     ("previous", JsUndefined)])].
Proof.
  intros fresh used. split.
  - pose proof (C4_prepareConfig sample_functions used (Static (JsString "fixed")) "arm64"
                  eq_refl) as [_ Hstatic].
    apply Hstatic; by cbv.
  - intros reading resolved.
    pose proof (C4_prepareConfig sample_functions resolved (Factory 2) "arm64" eq_refl)
      as [_ Hfactory].
    exact (proj1 (proj2 Hfactory)).
Defined.

(** C10. The discrimination is by the run-time type of the stored value, not
    by a tag: on every instance, fresh or already used, whose stored value is
    a function, whether it was meant as a factory or as a static
    configuration, [prepareConfig] calls the function on the instance with
    the architecture and stores what it returns in [config] (or completes
    with what it throws); the function itself is not what [config] becomes.
    A function supplied as a static configuration builds the very instance
    the same function supplied as a factory builds. *)
Theorem C10_function_valued_config_is_called (functions : Functions) (this : Maker)
    (ref : FunctionRef) (arch : ForgeArch) :
  configOrConfigFetcher this = JsFunction ref →
  typeof (configOrConfigFetcher this) = "function" ∧
  prepareConfig functions this arch =
    match functions ref this arch with
    | (Normal v, this') => (Normal tt, set_config this' v)
    | (Throw e, this') => (Throw e, this')
    end ∧
  (∀ v this',
     functions ref this arch = (Normal v, this') →
     (prepareConfig functions this arch).1 = Normal tt ∧
     config (prepareConfig functions this arch).2 = v ∧
     same_but_config this' (prepareConfig functions this arch).2) ∧
  (∀ e this',
     functions ref this arch = (Throw e, this') →
     prepareConfig functions this arch = (Throw e, this')) ∧
  (∀ cls override,
     new_Maker cls (Some (supplied (Static (JsFunction ref)))) override
     = new_Maker cls (Some (supplied (Factory ref))) override ∧
     configOrConfigFetcher (new_Maker cls (Some (supplied (Static (JsFunction ref)))) override)
     = JsFunction ref).
Proof.
  intros Hstored. split; [by rewrite Hstored|].
  rewrite (prepareConfig_function functions this arch ref Hstored).
  split; [done|]. split; [|split; [|done]].
  - intros v this' ->. split; [done|]. split; [done|]. apply set_config_same.
  - by intros e this' ->.
Qed.

Lemma C10_function_valued_config_witness :
  let fresh := new_Maker zip_class (Some (supplied (Static (JsFunction 1)))) None in
  let used := (prepareConfig sample_functions fresh "x64").2 in
  config used = JsObject [("bits", JsString "64")] ∧
  config (prepareConfig sample_functions used "ia32").2 = JsObject [("bits", JsString "32")].
Proof.
  intros fresh used. split.
  - exact (proj1 (proj2 (proj1 (proj2 (proj2
             (C10_function_valued_config_is_called sample_functions fresh 1 "x64" eq_refl)))
             _ _ eq_refl))).
  - exact (proj1 (proj2 (proj1 (proj2 (proj2
             (C10_function_valued_config_is_called sample_functions used 1 "ia32" eq_refl)))
             _ _ eq_refl))).
Defined.

Example factory_differs_by_arch :
  let this := new_Maker zip_class (Some (supplied (Factory 1))) None in
  config (prepareConfig sample_functions this "x64").2
    ≠ config (prepareConfig sample_functions this "ia32").2 ∧
  prepareConfig sample_functions this "mips"
    = (Throw (JsError "unsupported architecture"), this).
Proof. by cbv. Qed.

(** A factory is called on the instance: it sees the instance's name and what
    [config] holds from an earlier call, and what it does to the instance
    stays. *)
Example factory_is_called_on_the_instance :
  let this := new_Maker installer_class (Some (JsFunction 2)) None in
  config (prepareConfig sample_functions this "x64").2
    = JsObject [("maker", JsString "installer"); ("arch", JsString "x64");
                ("previous", JsUndefined)] ∧
  requiredExternalBinaries (prepareConfig sample_functions this "x64").2 = ["tool-x64"].
Proof. by cbv. Qed.

(** ** Auxiliary checks *)

(** C8. For every module name and every behaviour of the module loader,
    [isInstalled] completes normally: with [true] when loading the module
    succeeds and with [false] when loading throws, whatever was thrown; the
    loader is left as the load attempt left it. *)
Theorem C8_isInstalled_never_throws (Loader : Type)
    (require : string -> Loader -> result JsValue * Loader)
    (module : string) (w : Loader) :
  (∃ b, (isInstalled Loader require module w).1 = Normal b) ∧
  ((isInstalled Loader require module w).1 = Normal true ↔
     ∃ exports, (require module w).1 = Normal exports) ∧
  ((isInstalled Loader require module w).1 = Normal false ↔
     ∃ e, (require module w).1 = Throw e) ∧
  (isInstalled Loader require module w).2 = (require module w).2.
Proof.
  unfold isInstalled, try_catch.
  destruct (require module w) as [[exports|e] w']; simpl.
  - repeat split; eauto; try done. by intros [? ?].
  - repeat split; eauto; try done. by intros [? ?].
Qed.

Example isInstalled_examples :
  (isInstalled _ sample_require "definitely-not-a-real-module-xyz" []).1 = Normal false ∧
  (isInstalled _ sample_require "broken-native-addon" []).1 = Normal false ∧
  (isInstalled _ sample_require "fs-extra" []).1 = Normal true.
Proof. by cbv. Qed.

(** C7, as stated, fails: [.] does not match a line terminator, so the text
    from the first line terminator after the ['-'] onwards is kept. *)
Lemma C7_line_terminator_counterexample :
  let version := "1.2.3-beta" +:+ LF +:+ "4" in
  normalizeWindowsVersion version = "1.2.3" +:+ LF +:+ "4.0" ∧
  normalizeWindowsVersion version ≠ "1.2.3.0" ∧
  normalizeWindowsVersion version ≠ normalizeWindowsVersion_spec version.
Proof. by cbv. Qed.

Lemma replace_prerelease_no_dash (s : string) :
  has_dash s = false → replace_prerelease s = s.
Proof.
  induction s as [|c s IH]; simpl; [done|].
  destruct (Ascii.eqb c "-"); simpl; [done|]. intros H. by rewrite IH.
Qed.

Lemma replace_prerelease_dash (pre suf : string) :
  has_dash pre = false →
  replace_prerelease (pre +:+ "-" +:+ suf) = pre +:+ after_dot_star suf.
Proof.
  induction pre as [|c pre IH]; [done|].
  rewrite (append_cons c pre ("-" +:+ suf)), (append_cons c pre (after_dot_star suf)).
  cbn [replace_prerelease has_dash].
  destruct (Ascii.eqb c "-"); [done|]. intros H. by rewrite IH.
Qed.

Lemma before_dash_app (pre suf : string) :
  has_dash pre = false → before_dash (pre +:+ "-" +:+ suf) = pre.
Proof.
  induction pre as [|c pre IH]; [done|].
  rewrite (append_cons c pre ("-" +:+ suf)). cbn [before_dash has_dash].
  destruct (Ascii.eqb c "-"); [done|]. intros H. by rewrite IH.
Qed.

Lemma after_dot_star_no_line_terminator (s : string) :
  has_line_terminator s = false → after_dot_star s = "".
Proof.
  induction s as [|c s IH]; [done|].
  cbn [has_line_terminator after_dot_star].
  intros [H1 H2]%orb_false_iff. by rewrite H1, IH.
Qed.

Lemma at_line_terminator_append_l (a b : string) :
  at_line_terminator a = true → at_line_terminator (a +:+ b) = true.
Proof.
  unfold at_line_terminator. rewrite !orb_true_iff.
  intros [[[H|H]|H]|H]; apply (prefix_append_l _ _ b) in H; auto.
Qed.

(** The greedy [.*] skips a stretch in which no line terminator starts and
    stops at the end of the string or in front of a line terminator. *)
Lemma after_dot_star_split (s : string) :
  ∃ skipped,
    s = skipped +:+ after_dot_star s ∧
    has_line_terminator skipped = false ∧
    (after_dot_star s = "" ∨ at_line_terminator (after_dot_star s) = true).
Proof.
  induction s as [|c s (skipped & Heq & Hno & Hstop)].
  - exists ""%string. split; [done|]. split; [done|]. by left.
  - cbn [after_dot_star]. destruct (at_line_terminator (String c s)) eqn:E.
    + exists ""%string. split; [done|]. split; [done|]. by right.
    + exists (String c skipped). rewrite append_cons, <- Heq.
      split; [done|]. split; [|done].
      cbn [has_line_terminator]. rewrite Hno, orb_false_r.
      destruct (at_line_terminator (String c skipped)) eqn:E'; [|done].
      apply (at_line_terminator_append_l _ (after_dot_star s)) in E'.
      rewrite append_cons, <- Heq in E'. congruence.
Qed.

(** C7 (amended). For every input string, [normalizeWindowsVersion] removes
    the text from the first ['-'] up to, and not including, the first line
    terminator (LF, CR, U+2028, U+2029) that follows it, or up to the end of
    the string when none follows, and appends [".0"]; a string without ['-']
    only gets the [".0"].  In particular, when no line terminator follows the
    first ['-'], everything from it to the end of the string is dropped, as
    in ["1.2.3-beta.1"], which gives ["1.2.3.0"]; and ["2.0.0"] gives
    ["2.0.0.0"]. *)
Theorem C7_normalizeWindowsVersion (version : string) :
  (has_dash version = false →
     normalizeWindowsVersion version = version +:+ ".0") ∧
  (∀ pre suf,
     version = pre +:+ "-" +:+ suf → has_dash pre = false →
     (∃ skipped kept,
        suf = skipped +:+ kept ∧
        has_line_terminator skipped = false ∧
        (kept = "" ∨ at_line_terminator kept = true) ∧
        normalizeWindowsVersion version = pre +:+ kept +:+ ".0") ∧
     (has_line_terminator suf = false →
        normalizeWindowsVersion version = pre +:+ ".0" ∧
        normalizeWindowsVersion version = normalizeWindowsVersion_spec version)) ∧
  normalizeWindowsVersion "1.2.3-beta.1" = "1.2.3.0" ∧
  normalizeWindowsVersion "2.0.0" = "2.0.0.0".
Proof.
  unfold normalizeWindowsVersion, normalizeWindowsVersion_spec.
  split; [|split; [|done]].
  - intros H. by rewrite replace_prerelease_no_dash.
  - intros pre suf -> Hpre. rewrite replace_prerelease_dash, before_dash_app by done.
    split.
    + destruct (after_dot_star_split suf) as (skipped & Heq & Hno & Hstop).
      exists skipped, (after_dot_star suf). by rewrite append_assoc.
    + intros Hno. rewrite after_dot_star_no_line_terminator by done.
      by rewrite append_assoc.
Qed.

Lemma C7_normalizeWindowsVersion_witness :
  has_dash "1.2.3" = false ∧
  has_line_terminator "beta.1" = false ∧
  normalizeWindowsVersion "1.2.3-beta.1" = "1.2.3" +:+ ".0".
Proof.
  split; [reflexivity|]. split; [reflexivity|].
  apply (proj1 (proj2 (C7_normalizeWindowsVersion "1.2.3-beta.1")) "1.2.3" "beta.1");
    reflexivity.
Defined.

(** ** Staging helpers *)

Lemma dirname_snoc (p : path) (segment : string) : dirname (p ++ [segment]) = p.
Proof.
  unfold dirname. rewrite length_app. simpl.
  replace (length p + 1 - 1) with (length p) by lia.
  by rewrite take_app_length.
Qed.

Lemma dirname_prefix (p : path) : dirname p `prefix_of` p.
Proof. apply prefix_take. Qed.

Lemma dirname_length (p : path) : p ≠ [] → length (dirname p) < length p.
Proof.
  intros Hp. unfold dirname. rewrite length_take.
  destruct p; [done|]. simpl. lia.
Qed.

Lemma stat_lookup (fs : FileSystem) (p : path) : p ≠ [] → stat fs p = fs !! p.
Proof. by destruct p. Qed.

Lemma wf_lookup (fs : FileSystem) (p : path) (n : node) :
  wf fs → fs !! p = Some n → p ≠ [] ∧ stat fs (dirname p) = Some Directory.
Proof. intros Hwf Hp. exact (Hwf p n Hp). Qed.

(** In a well-formed file system whatever lies below a path lies in a
    directory at that path. *)
Lemma wf_ancestor (fs : FileSystem) (d q : path) (n : node) :
  wf fs → q ≠ [] → fs !! (d ++ q) = Some n → stat fs d = Some Directory.
Proof.
  intros Hwf. revert n. induction q as [|x q IH] using rev_ind; [done|].
  intros n _ Hq. rewrite app_assoc in Hq.
  apply wf_lookup in Hq as [_ Hq]; [|done]. rewrite dirname_snoc in Hq.
  destruct q as [|y q]; [by rewrite app_nil_r in Hq|].
  rewrite stat_lookup in Hq by (by destruct d).
  by eapply IH.
Qed.

(** *** [remove] *)

Lemma remove_lookup (fs fs' : FileSystem) (p q : path) (r : result unit) :
  remove p fs = (r, fs') → p ≠ [] →
  r = Normal tt ∧ fs' !! q = if decide (p `prefix_of` q) then None else fs !! q.
Proof.
  intros Hrm Hp. destruct p as [|s p]; [done|]. simpl in Hrm.
  injection Hrm as <- <-. split; [done|].
  case_decide as Hpre.
  - apply map_lookup_filter_None. right. intros n _. simpl. by intros [].
  - destruct (fs !! q) as [n|] eqn:E.
    + by apply map_lookup_filter_Some.
    + apply map_lookup_filter_None. by left.
Qed.

Lemma remove_wf (fs fs' : FileSystem) (p : path) (r : result unit) :
  wf fs → remove p fs = (r, fs') → wf fs'.
Proof.
  intros Hwf Hrm. destruct (decide (p = [])) as [->|Hp].
  { simpl in Hrm. by injection Hrm as <- <-. }
  intros q n Hq.
  pose proof (remove_lookup _ _ _ q _ Hrm Hp) as [_ Hq'].
  rewrite Hq in Hq'. case_decide as Hpre; [done|].
  symmetry in Hq'. apply (wf_lookup _ _ _ Hwf) in Hq' as [Hne Hdir].
  split; [done|].
  destruct (decide (dirname q = [])) as [->|Hd]; [done|].
  rewrite stat_lookup in Hdir |- * by done.
  pose proof (remove_lookup _ _ _ (dirname q) _ Hrm Hp) as [_ ->].
  case_decide as Hpre'; [|done].
  destruct Hpre. etrans; [done|]. apply dirname_prefix.
Qed.

(** *** [mkdirs] *)

(** [mkdirs] only adds entries. *)
Lemma mkdirs_from_preserves (done todo : path) (fs fs' : FileSystem) (r : result unit)
    (q : path) (n : node) :
  mkdirs_from done todo fs = (r, fs') → fs !! q = Some n → fs' !! q = Some n.
Proof.
  revert done fs. induction todo as [|segment rest IH]; intros done fs Hmk Hq; simpl in Hmk.
  { by injection Hmk as <- <-. }
  destruct (fs !! (done ++ [segment])) as [[]|] eqn:E.
  - by injection Hmk as <- <-.
  - by eapply IH.
  - eapply IH; [done|]. rewrite lookup_insert_ne; [done|]. congruence.
Qed.

(** What a successful [mkdirs] leaves at each segment of the path is a
    directory. *)
Lemma mkdirs_from_created (done todo : path) (fs fs' : FileSystem) :
  mkdirs_from done todo fs = (Normal tt, fs') →
  ∀ r, r ≠ [] → r `prefix_of` todo → fs' !! (done ++ r) = Some Directory.
Proof.
  revert done fs. induction todo as [|segment rest IH]; intros done fs Hmk r Hr Hpre.
  { by apply prefix_nil_inv in Hpre. }
  destruct r as [|x r]; [done|].
  apply prefix_cons_inv_1 in Hpre as Hx. subst x.
  apply prefix_cons_inv_2 in Hpre.
  assert (∃ fs1, fs1 !! (done ++ [segment]) = Some Directory ∧
                 mkdirs_from (done ++ [segment]) rest fs1 = (Normal tt, fs'))
    as (fs1 & Hhere & Hmk1).
  { simpl in Hmk. destruct (fs !! (done ++ [segment])) as [[]|] eqn:E; [done| |].
    - by exists fs.
    - eexists. split; [|done]. apply lookup_insert_eq. }
  destruct r as [|y r].
  - by eapply mkdirs_from_preserves.
  - rewrite (cons_middle segment done), app_assoc. by eapply IH.
Qed.

(** A [mkdirs] touches nothing but the segments of the path. *)
Lemma mkdirs_from_other (done todo : path) (fs fs' : FileSystem) (r : result unit)
    (q : path) :
  mkdirs_from done todo fs = (r, fs') →
  (∀ r', r' ≠ [] → r' `prefix_of` todo → q ≠ done ++ r') →
  fs' !! q = fs !! q.
Proof.
  revert done fs. induction todo as [|segment rest IH]; intros done fs Hmk Hq; simpl in Hmk.
  { by injection Hmk as <- <-. }
  assert (q ≠ done ++ [segment]) as Hne.
  { apply Hq; [done|]. by apply prefix_cons, prefix_nil. }
  assert (∀ r', r' ≠ [] → r' `prefix_of` rest → q ≠ (done ++ [segment]) ++ r') as Hq'.
  { intros r' Hr' Hpre. rewrite <- app_assoc. apply Hq; [done|]. by apply prefix_cons. }
  destruct (fs !! (done ++ [segment])) as [[]|] eqn:E.
  - by injection Hmk as <- <-.
  - by eapply IH.
  - erewrite IH; [|done|done]. by rewrite lookup_insert_ne.
Qed.

(** A [mkdirs] succeeds when no segment of the path is a file. *)
Lemma mkdirs_from_succeeds (done todo : path) (fs : FileSystem) :
  (∀ r, r ≠ [] → r `prefix_of` todo → fs !! (done ++ r) ≠ Some File) →
  ∃ fs', mkdirs_from done todo fs = (Normal tt, fs').
Proof.
  revert done fs. induction todo as [|segment rest IH]; intros done fs Hnf; simpl.
  { by eexists. }
  assert (fs !! (done ++ [segment]) ≠ Some File) as Hhere.
  { apply Hnf; [done|]. by apply prefix_cons, prefix_nil. }
  assert (∀ r, r ≠ [] → r `prefix_of` rest → fs !! ((done ++ [segment]) ++ r) ≠ Some File)
    as Hrest.
  { intros r Hr Hpre. rewrite <- app_assoc. apply Hnf; [done|]. by apply prefix_cons. }
  destruct (fs !! (done ++ [segment])) as [[]|] eqn:E; [done| |].
  - by apply IH.
  - apply IH. intros r Hr Hpre.
    rewrite lookup_insert_ne; [by apply Hrest|].
    intros Heq. apply (f_equal length) in Heq. rewrite !length_app in Heq.
    destruct r; [done|]. simpl in Heq. lia.
Qed.

Lemma mkdirs_from_wf (done todo : path) (fs fs' : FileSystem) (r : result unit) :
  wf fs → stat fs done = Some Directory →
  mkdirs_from done todo fs = (r, fs') → wf fs'.
Proof.
  revert done fs. induction todo as [|segment rest IH]; intros done fs Hwf Hdone Hmk;
    simpl in Hmk.
  { by injection Hmk as <- <-. }
  assert (done ++ [segment] ≠ []) as Hne by (by destruct done).
  destruct (fs !! (done ++ [segment])) as [[]|] eqn:E.
  - by injection Hmk as <- <-.
  - eapply IH; [done| |done]. by rewrite stat_lookup.
  - eapply IH; [| |done].
    + intros q n Hq. apply lookup_insert_Some in Hq as [[<- <-]|[Hqne Hq]].
      * split; [done|]. rewrite dirname_snoc.
        destruct done as [|d done]; [done|].
        rewrite stat_lookup in Hdone |- * by done.
        rewrite lookup_insert_ne; [done|].
        intros Heq. apply (f_equal length) in Heq. rewrite length_app in Heq.
        simpl in Heq. lia.
      * apply (wf_lookup _ _ _ Hwf) in Hq as [Hq Hdir]. split; [done|].
        destruct (dirname q) as [|d dq] eqn:Ed; [done|].
        rewrite stat_lookup in Hdir |- * by done.
        destruct (decide (done ++ [segment] = d :: dq)) as [->|Hother].
        -- apply lookup_insert_eq.
        -- by rewrite lookup_insert_ne.
    + rewrite stat_lookup by done. apply lookup_insert_eq.
Qed.

(** *** The destructive reset both helpers start with *)

Lemma ensureDirectory_unfold (dir : path) (fs : FileSystem) :
  ensureDirectory dir fs =
    match reset dir fs with
    | (Normal _, fs1) => mkdirs dir fs1
    | (Throw e, fs1) => (Throw e, fs1)
    end.
Proof.
  unfold ensureDirectory, reset, mbind, IO_bind, pathExists.
  by destruct (bool_decide (is_Some (stat fs dir))).
Qed.

Lemma ensureFile_unfold (file : path) (fs : FileSystem) :
  ensureFile file fs =
    match reset file fs with
    | (Normal _, fs1) =>
        match mkdirs (dirname file) fs1 with
        | (Normal _, fs2) => (Normal tt, fs2)
        | (Throw e, fs2) => (Throw e, fs2)
        end
    | (Throw e, fs1) => (Throw e, fs1)
    end.
Proof.
  unfold ensureFile, reset, mbind, IO_bind, pathExists.
  by destruct (bool_decide (is_Some (stat fs file))).
Qed.

Lemma reset_spec (p : path) (fs fs1 : FileSystem) :
  reset p fs = (Normal tt, fs1) →
  p ≠ [] ∧
  fs1 !! p = None ∧
  (∀ q, ¬ p `prefix_of` q → fs1 !! q = fs !! q) ∧
  (wf fs → wf fs1 ∧ ∀ q, fs1 !! (p ++ q) = None).
Proof.
  unfold reset. case_bool_decide as Hfound; intros Hreset.
  - assert (p ≠ []) as Hp by (intros ->; simpl in Hreset; congruence).
    assert (∀ q, fs1 !! q = if decide (p `prefix_of` q) then None else fs !! q) as Hlook.
    { intros q. by apply (remove_lookup _ _ _ q _ Hreset). }
    split; [done|]. split; [|split].
    + rewrite Hlook. by rewrite decide_True.
    + intros q Hq. rewrite Hlook. by rewrite decide_False.
    + intros Hwf. split; [by eapply remove_wf|].
      intros q. rewrite Hlook. rewrite decide_True; [done|]. by apply prefix_app_r.
  - injection Hreset as <-.
    assert (p ≠ []) as Hp by (intros ->; apply Hfound; by eexists).
    assert (fs !! p = None) as Hnone.
    { rewrite <- stat_lookup by done. by apply eq_None_not_Some. }
    split; [done|]. split; [done|]. split; [done|].
    intros Hwf. split; [done|]. intros q.
    destruct q as [|x q]; [by rewrite app_nil_r|].
    destruct (fs !! (p ++ x :: q)) as [n|] eqn:E; [|done].
    apply wf_ancestor in E; [|done|done].
    rewrite stat_lookup in E by done. congruence.
Qed.

Lemma reset_succeeds (p : path) (fs : FileSystem) :
  p ≠ [] → ∃ fs1, reset p fs = (Normal tt, fs1).
Proof.
  intros Hp. unfold reset. destruct p; [done|].
  case_bool_decide; by eexists.
Qed.



(** [ensureDirectory] completes successfully whenever the path is below the
    root and none of its parent segments is a file. *)
Lemma ensureDirectory_succeeds (fs : FileSystem) (dir : path) :
  dir ≠ [] →
  (∀ p, p `prefix_of` dir → p ≠ dir → fs !! p ≠ Some File) →
  ∃ fs', ensureDirectory dir fs = (Normal tt, fs').
Proof.
  intros Hdir Hparents. rewrite ensureDirectory_unfold.
  destruct (reset_succeeds dir fs Hdir) as [fs1 Hreset]. rewrite Hreset.
  apply reset_spec in Hreset as (_ & Hgone & Hout & _).
  apply mkdirs_from_succeeds. simpl. intros r _ Hr.
  destruct (decide (r = dir)) as [->|Hne]; [by rewrite Hgone|].
  rewrite Hout; [by apply Hparents|].
  intros Hrev. apply Hne. by apply (anti_symm prefix).
Qed.

Lemma completes_with {A} (run : result A * FileSystem) (a : A) :
  run.1 = Normal a → run = (Normal a, run.2).
Proof. destruct run as [r fs']. simpl. by intros ->. Qed.


Example ensureDirectory_sample :
  let fs' := (ensureDirectory ["out"; "make"] sample_fs).2 in
  fs' !! ["out"; "make"] = Some Directory ∧
  fs' !! ["out"; "make"; "zip"] = None ∧
  fs' !! ["out"; "make"; "zip"; "app.zip"] = None ∧
  fs' !! ["out"] = Some Directory.
Proof. vm_compute. by repeat split. Qed.

Example ensureDirectory_creates_parents :
  let run := ensureDirectory ["out"; "make"; "deb"; "x64"] (<[ ["out"] := Directory ]> ∅) in
  run.1 = Normal tt ∧
  run.2 !! ["out"; "make"] = Some Directory ∧
  run.2 !! ["out"; "make"; "deb"] = Some Directory ∧
  run.2 !! ["out"; "make"; "deb"; "x64"] = Some Directory.
Proof. vm_compute. by repeat split. Qed.


(** [ensureFile] completes successfully whenever the path is below the root
    and none of its parent segments is a file. *)
Lemma ensureFile_succeeds (fs : FileSystem) (file : path) :
  file ≠ [] →
  (∀ p, p `prefix_of` dirname file → fs !! p ≠ Some File) →
  ∃ fs', ensureFile file fs = (Normal tt, fs').
Proof.
  intros Hfile Hparents. rewrite ensureFile_unfold.
  destruct (reset_succeeds file fs Hfile) as [fs1 Hreset]. rewrite Hreset.
  apply reset_spec in Hreset as (_ & _ & Hout & _).
  destruct (mkdirs_from_succeeds [] (dirname file) fs1) as [fs2 Hmk].
  - simpl. intros r _ Hr. rewrite Hout; [by apply Hparents|].
    intros Hrev. apply prefix_length in Hr, Hrev.
    pose proof (dirname_length _ Hfile). lia.
  - unfold mkdirs. rewrite Hmk. by eexists.
Qed.


Example ensureFile_sample :
  let run := ensureFile ["out"; "make"; "rpm"; "app.rpm"] sample_fs in
  run.1 = Normal tt ∧
  run.2 !! ["out"; "make"; "rpm"; "app.rpm"] = None ∧
  run.2 !! ["out"; "make"; "rpm"] = Some Directory ∧
  run.2 !! ["out"; "make"; "zip"; "app.zip"] = Some File.
Proof. vm_compute. by repeat split. Qed.

(** A parent segment that is a file makes both helpers fail, and the root
    cannot be reset. *)
Example staging_failures :
  (ensureDirectory ["out"; "make"; "zip"; "app.zip"; "x"] sample_fs).1
    = Throw (JsError "ENOTDIR: not a directory, mkdir") ∧
  (ensureFile [] sample_fs).1 = Throw (JsError "EBUSY: resource busy or locked, rmdir").
Proof. vm_compute. by repeat split. Qed.

Example ensureFile_parent_is_a_file :
  (ensureFile ["out"; "make"; "zip"; "app.zip"; "x"] sample_fs).1
    = Throw (JsError "EEXIST: file already exists, mkdir").
Proof. vm_compute. reflexivity. Qed.

(** * Further properties of the maker *)

(** ** Configuration *)



(** A maker constructed without a configuration argument, or with
    [undefined] for it, gets the empty object: for every architecture
    [prepareConfig] completes normally and [config] is [{}]. *)
Lemma prepareConfig_default_config (functions : Functions) (cls : MakerClass)
    (override : option (list ForgePlatform)) (arch : ForgeArch) :
  prepareConfig functions (new_Maker cls None override) arch
    = prepareConfig functions (new_Maker cls (Some JsUndefined) override) arch ∧
  (prepareConfig functions (new_Maker cls None override) arch).1 = Normal tt ∧
  config (prepareConfig functions (new_Maker cls None override) arch).2 = JsObject [].
Proof. done. Qed.

(** ** External binaries *)

(** Which of the required binaries are missing makes no difference: two
    search paths that each leave some required binary unresolved, not
    necessarily the same one, get the same error. *)
Theorem ensureExternalBinariesExist_same_error
    (which1 which2 : string -> option string) (this : Maker) :
  Exists (fun binary => which1 binary = None) (requiredExternalBinaries this) →
  Exists (fun binary => which2 binary = None) (requiredExternalBinaries this) →
  ensureExternalBinariesExist which1 this = ensureExternalBinariesExist which2 this ∧
  ∃ e, ensureExternalBinariesExist which1 this = Throw e.
Proof.
  intros H1%Exists_unresolved H2%Exists_unresolved.
  rewrite <- externalBinariesExist_Forall in H1, H2.
  unfold ensureExternalBinariesExist.
  destruct (externalBinariesExist which1 this); [done|].
  destruct (externalBinariesExist which2 this); [done|].
  split; [done|]. by eexists.
Qed.

Lemma ensureExternalBinariesExist_same_error_witness :
  ensureExternalBinariesExist only_toolA (new_Maker installer_class None None) =
  ensureExternalBinariesExist (fun _ => None) (new_Maker installer_class None None).
Proof.
  apply (ensureExternalBinariesExist_same_error only_toolA (fun _ => None)
           (new_Maker installer_class None None)).
  - apply Exists_cons_tl, Exists_cons_hd. reflexivity.
  - apply Exists_cons_hd. reflexivity.
Defined.

(** A search path that resolves at least what another resolves passes the
    check whenever the other does. *)
Theorem externalBinariesExist_monotone
    (which1 which2 : string -> option string) (this : Maker) :
  (∀ binary, is_Some (which1 binary) → is_Some (which2 binary)) →
  externalBinariesExist which1 this = true →
  externalBinariesExist which2 this = true ∧
  ensureExternalBinariesExist which2 this = Normal tt.
Proof.
  intros Hmore H1.
  assert (externalBinariesExist which2 this = true) as H2.
  { apply externalBinariesExist_Forall. apply externalBinariesExist_Forall in H1.
    eapply Forall_impl; [exact H1|]. simpl. auto. }
  split; [done|]. unfold ensureExternalBinariesExist. by rewrite H2.
Qed.

Lemma externalBinariesExist_monotone_witness :
  externalBinariesExist (fun binary => Some ("/opt/bin/" +:+ binary))
    (new_Maker installer_class None None) = true.
Proof.
  apply (externalBinariesExist_monotone
           (fun binary => Some ("/usr/bin/" +:+ binary))
           (fun binary => Some ("/opt/bin/" +:+ binary))
           (new_Maker installer_class None None)).
  - intros binary _. by eexists.
  - reflexivity.
Defined.

(** ** Windows version numbers *)

Lemma has_line_terminator_tail (c : Ascii.ascii) (s : string) :
  has_line_terminator (String c s) = false → has_line_terminator s = false.
Proof. cbn [has_line_terminator]. by intros [_ ?]%orb_false_iff. Qed.

Lemma replace_prerelease_before_dash (s : string) :
  has_line_terminator s = false → replace_prerelease s = before_dash s.
Proof.
  induction s as [|c s IH]; [done|]. intros Hno%has_line_terminator_tail.
  cbn [replace_prerelease before_dash]. destruct (Ascii.eqb c "-").
  - by apply after_dot_star_no_line_terminator.
  - by rewrite IH.
Qed.

Lemma has_dash_before_dash (s : string) : has_dash (before_dash s) = false.
Proof.
  induction s as [|c s IH]; [done|]. cbn [before_dash].
  destruct (Ascii.eqb c "-") eqn:E; [done|]. cbn [has_dash]. by rewrite E.
Qed.

Lemma has_dash_append (a b : string) : has_dash (a +:+ b) = has_dash a || has_dash b.
Proof.
  induction a as [|c a IH]; [done|].
  rewrite append_cons. cbn [has_dash]. by rewrite IH, orb_assoc.
Qed.

Lemma count_char_append (c : Ascii.ascii) (a b : string) :
  count_char c (a +:+ b) = count_char c a + count_char c b.
Proof.
  induction a as [|x a IH]; [done|].
  rewrite append_cons. cbn [count_char]. rewrite IH. lia.
Qed.

Lemma append_empty_r (s : string) : s +:+ "" = s.
Proof. induction s as [|c s IH]; [done|]. by rewrite append_cons, IH. Qed.

Lemma result_has_no_dash (version : string) :
  has_line_terminator version = false →
  has_dash (normalizeWindowsVersion version) = false.
Proof.
  intros Hno. unfold normalizeWindowsVersion.
  by rewrite replace_prerelease_before_dash, has_dash_append, has_dash_before_dash.
Qed.

(** No prerelease information is left: for an input without line terminators
    the result contains no ['-'] at all. *)
Theorem normalizeWindowsVersion_no_dash (version : string) :
  has_line_terminator version = false →
  has_dash (normalizeWindowsVersion version) = false.
Proof. apply result_has_no_dash. Qed.

Lemma normalizeWindowsVersion_no_dash_witness :
  has_dash (normalizeWindowsVersion "1.2.3-rc.1-nightly-20240101") = false.
Proof.
  apply (normalizeWindowsVersion_no_dash "1.2.3-rc.1-nightly-20240101"). reflexivity.
Defined.

(** The result has one dot-delimited part more than the input without its
    prerelease suffix: a three-part [major.minor.patch], with or without a
    suffix, becomes a four-part version number. *)
Theorem normalizeWindowsVersion_one_more_part (core : string) :
  has_dash core = false →
  count_char "." (normalizeWindowsVersion core) = S (count_char "." core) ∧
  ∀ prerelease,
    has_line_terminator prerelease = false →
    normalizeWindowsVersion (core +:+ "-" +:+ prerelease) = normalizeWindowsVersion core ∧
    count_char "." (normalizeWindowsVersion (core +:+ "-" +:+ prerelease))
      = S (count_char "." core).
Proof.
  intros Hcore. unfold normalizeWindowsVersion.
  rewrite replace_prerelease_no_dash by done.
  assert (count_char "." (core +:+ ".0") = S (count_char "." core)) as Hcount.
  { rewrite count_char_append. simpl. lia. }
  split; [done|]. intros prerelease Hno.
  rewrite replace_prerelease_dash by done.
  rewrite after_dot_star_no_line_terminator by done.
  by rewrite append_empty_r.
Qed.

Lemma normalizeWindowsVersion_one_more_part_witness :
  count_char "." (normalizeWindowsVersion "10.4.7-alpha.3") = 3.
Proof.
  apply (proj2 (normalizeWindowsVersion_one_more_part "10.4.7" eq_refl) "alpha.3").
  reflexivity.
Defined.

(** Normalising is not idempotent: a second pass over a result finds no
    suffix to strip and appends another [".0"]. *)
Theorem normalizeWindowsVersion_twice (version : string) :
  has_line_terminator version = false →
  normalizeWindowsVersion (normalizeWindowsVersion version)
    = normalizeWindowsVersion version +:+ ".0".
Proof.
  intros Hno. unfold normalizeWindowsVersion at 1.
  by rewrite replace_prerelease_no_dash by (by apply result_has_no_dash).
Qed.

Lemma normalizeWindowsVersion_twice_witness :
  normalizeWindowsVersion (normalizeWindowsVersion "1.2.3-beta.1") = "1.2.3.0.0".
Proof.
  apply (normalizeWindowsVersion_twice "1.2.3-beta.1"). reflexivity.
Defined.

(** ** Staging helpers *)

(** A [mkdirs] over a chain of directories that all exist changes nothing. *)
Lemma mkdirs_from_noop (done todo : path) (fs : FileSystem) :
  (∀ r, r ≠ [] → r `prefix_of` todo → fs !! (done ++ r) = Some Directory) →
  mkdirs_from done todo fs = (Normal tt, fs).
Proof.
  revert done. induction todo as [|segment rest IH]; intros here Hdirs; simpl; [done|].
  assert (fs !! (here ++ [segment]) = Some Directory) as ->.
  { apply Hdirs; [done|]. by apply prefix_cons, prefix_nil. }
  apply IH. intros r Hr Hpre. rewrite <- app_assoc.
  apply Hdirs; [done|]. by apply prefix_cons.
Qed.

(** What is at each path once [ensureDirectory] has succeeded. *)
Lemma ensureDirectory_lookup (fs fs' : FileSystem) (dir : path) :
  wf fs →
  ensureDirectory dir fs = (Normal tt, fs') →
  dir ≠ [] ∧ wf fs' ∧
  ∀ q, fs' !! q =
         if decide (q ≠ [] ∧ q `prefix_of` dir) then Some Directory
         else if decide (dir `prefix_of` q) then None
         else fs !! q.
Proof.
  intros Hwf. rewrite ensureDirectory_unfold.
  destruct (reset dir fs) as [[[]|e] fs1] eqn:Hreset; [|done].
  apply reset_spec in Hreset as (Hdir & _ & Hout & Hin).
  destruct (Hin Hwf) as [Hwf1 Hclear]. unfold mkdirs. intros Hmk.
  split; [done|]. split; [by eapply (mkdirs_from_wf [])|].
  intros q. case_decide as Hchain.
  - destruct Hchain. by apply (mkdirs_from_created _ _ _ _ Hmk).
  - rewrite (mkdirs_from_other _ _ _ _ _ _ Hmk).
    + case_decide as Hbelow; [|by apply Hout].
      destruct Hbelow as [q' ->]. apply Hclear.
    + intros r' Hr' Hpre ->. by apply Hchain.
Qed.

(** What is at each path once [ensureFile] has succeeded. *)
Lemma ensureFile_lookup (fs fs' : FileSystem) (file : path) :
  ensureFile file fs = (Normal tt, fs') →
  file ≠ [] ∧ fs' !! file = None ∧
  (∀ p, p ≠ [] → p `prefix_of` dirname file → fs' !! p = Some Directory).
Proof.
  rewrite ensureFile_unfold.
  destruct (reset file fs) as [[[]|e] fs1] eqn:Hreset; [|done].
  apply reset_spec in Hreset as (Hfile & Hgone & _ & _).
  unfold mkdirs.
  destruct (mkdirs_from [] (dirname file) fs1) as [[[]|e] fs2] eqn:Hmk; [|done].
  intros [= <-]. split; [done|]. split.
  - rewrite (mkdirs_from_other _ _ _ _ _ _ Hmk); [done|].
    intros r' _ Hr' Heq. simpl in Heq. subst r'. apply prefix_length in Hr'.
    pose proof (dirname_length _ Hfile). lia.
  - intros p Hp Hpre. by apply (mkdirs_from_created _ _ _ _ Hmk).
Qed.

(** [ensureFile] changes nothing when nothing is at the path and its parent
    chain exists. *)
Lemma ensureFile_noop (fs : FileSystem) (file : path) :
  file ≠ [] → fs !! file = None →
  (∀ p, p ≠ [] → p `prefix_of` dirname file → fs !! p = Some Directory) →
  ensureFile file fs = (Normal tt, fs).
Proof.
  intros Hfile Hnone Hchain. rewrite ensureFile_unfold. unfold reset.
  rewrite stat_lookup, Hnone by done.
  rewrite bool_decide_eq_false_2 by (by intros [? ?]).
  unfold mkdirs. by rewrite mkdirs_from_noop.
Qed.

(** The exact effect of a successful [ensureDirectory] on a well-formed file
    system: every segment of the path is a directory, everything that lay
    below the path is gone, and every other path is as it was; the file
    system stays well-formed. *)
Theorem ensureDirectory_exact_effect (fs fs' : FileSystem) (dir : path) :
  wf fs →
  ensureDirectory dir fs = (Normal tt, fs') →
  wf fs' ∧
  ∀ q, fs' !! q =
         if decide (q ≠ [] ∧ q `prefix_of` dir) then Some Directory
         else if decide (dir `prefix_of` q) then None
         else fs !! q.
Proof. intros Hwf Hrun. by destruct (ensureDirectory_lookup _ _ _ Hwf Hrun) as (_ & ? & ?). Qed.

Lemma wf_sample_fs : wf sample_fs.
Proof. apply (bool_decide_unpack _). by vm_compute. Qed.

Lemma ensureDirectory_exact_effect_witness :
  (ensureDirectory ["out"; "make"] sample_fs).2 !! ["out"; "make"; "zip"; "app.zip"] = None.
Proof.
  assert ((ensureDirectory ["out"; "make"] sample_fs).1 = Normal tt) as Hrun
    by (vm_compute; reflexivity).
  rewrite (proj2 (ensureDirectory_exact_effect _ _ _ wf_sample_fs (completes_with _ _ Hrun))).
  reflexivity.
Defined.

(** [ensureDirectory] is idempotent: run again on what it left, it succeeds
    and leaves the same file system. *)
Theorem ensureDirectory_idempotent (fs fs' : FileSystem) (dir : path) :
  wf fs →
  ensureDirectory dir fs = (Normal tt, fs') →
  ensureDirectory dir fs' = (Normal tt, fs').
Proof.
  intros Hwf Hrun.
  destruct (ensureDirectory_lookup _ _ _ Hwf Hrun) as (Hdir & Hwf' & Hlook).
  destruct (ensureDirectory_succeeds fs' dir Hdir) as [fs'' Hrun'].
  { intros p Hp Hne. destruct (decide (p = [])) as [->|Hp'].
    - intros Hroot. by apply (wf_lookup _ _ _ Hwf') in Hroot as [? _].
    - rewrite Hlook, decide_True; done. }
  rewrite Hrun'. f_equal.
  destruct (ensureDirectory_lookup _ _ _ Hwf' Hrun') as (_ & _ & Hlook').
  apply map_eq. intros q. rewrite Hlook'.
  case_decide; [by rewrite Hlook, decide_True|].
  case_decide; [by rewrite Hlook, decide_False, decide_True|done].
Qed.

Lemma ensureDirectory_idempotent_witness :
  ensureDirectory ["out"; "make"] (ensureDirectory ["out"; "make"] sample_fs).2
    = (Normal tt, (ensureDirectory ["out"; "make"] sample_fs).2).
Proof.
  assert ((ensureDirectory ["out"; "make"] sample_fs).1 = Normal tt) as Hrun
    by (vm_compute; reflexivity).
  exact (ensureDirectory_idempotent _ _ _ wf_sample_fs (completes_with _ _ Hrun)).
Defined.

(** [ensureFile] is idempotent, on every file system. *)
Theorem ensureFile_idempotent (fs fs' : FileSystem) (file : path) :
  ensureFile file fs = (Normal tt, fs') →
  ensureFile file fs' = (Normal tt, fs').
Proof.
  intros Hrun. destruct (ensureFile_lookup _ _ _ Hrun) as (Hfile & Hnone & Hchain).
  by apply ensureFile_noop.
Qed.

Lemma ensureFile_idempotent_witness :
  ensureFile ["out"; "make"; "zip"; "app.zip"]
    (ensureFile ["out"; "make"; "zip"; "app.zip"] sample_fs).2
  = (Normal tt, (ensureFile ["out"; "make"; "zip"; "app.zip"] sample_fs).2).
Proof.
  assert ((ensureFile ["out"; "make"; "zip"; "app.zip"] sample_fs).1 = Normal tt) as Hrun
    by (vm_compute; reflexivity).
  exact (ensureFile_idempotent _ _ _ (completes_with _ _ Hrun)).
Defined.

(** Preparing a file directly inside a directory that has just been reset
    changes nothing: the directory is still empty, the file is still to be
    written. *)
Theorem ensureFile_after_ensureDirectory (fs fs' : FileSystem) (dir : path)
    (base : string) :
  wf fs →
  ensureDirectory dir fs = (Normal tt, fs') →
  ensureFile (dir ++ [base]) fs' = (Normal tt, fs').
Proof.
  intros Hwf Hrun.
  destruct (ensureDirectory_lookup _ _ _ Hwf Hrun) as (Hdir & _ & Hlook).
  apply ensureFile_noop.
  - by destruct dir.
  - rewrite Hlook, decide_False, decide_True; [done|by apply prefix_app_r|].
    intros [_ Hpre]. by apply prefix_snoc_not in Hpre.
  - rewrite dirname_snoc. intros p Hp Hpre. by rewrite Hlook, decide_True.
Qed.

Lemma ensureFile_after_ensureDirectory_witness :
  ensureFile (["out"; "make"] ++ ["app.zip"]) (ensureDirectory ["out"; "make"] sample_fs).2
    = (Normal tt, (ensureDirectory ["out"; "make"] sample_fs).2).
Proof.
  assert ((ensureDirectory ["out"; "make"] sample_fs).1 = Normal tt) as Hrun
    by (vm_compute; reflexivity).
  exact (ensureFile_after_ensureDirectory _ _ _ "app.zip" wf_sample_fs
           (completes_with _ _ Hrun)).
Defined.

(** * Properties of the build-tool plugins *)

Section VitePluginProperties.
Import VitePlugin.

(** ** [externalBuiltins] *)

Lemma array_includes_elem_of (xs : list string) (x : string) :
  array_includes xs x = true ↔ x ∈ xs.
Proof.
  unfold array_includes. induction xs as [|y ys IH]; simpl.
  - split; [done|]. by intros ?%elem_of_nil.
  - rewrite orb_true_iff, IH, elem_of_cons, String.eqb_eq. done.
Qed.

Lemma matches_builtins (xs : list string) (source : string) :
  existsb (fun item => item_matches item source) (List.map ItemString xs)
  = array_includes xs source.
Proof.
  unfold array_includes. induction xs as [|y ys IH]; simpl; [done|].
  by rewrite IH, String.eqb_sym.
Qed.

(** What the bundler keeps out of the bundle after the hook: the builtins,
    and whatever the configuration kept out before. *)
Lemma externalises_after_hook (builtinModules : list string) (config : UserConfig)
    (source : string) (importer : option string) (isResolved : bool) :
  externalises (external_of (externalBuiltins_config builtinModules config))
    source importer isResolved
  = array_includes (builtins builtinModules) source
    || externalises (external_of config) source importer isResolved.
Proof.
  unfold external_of, externalBuiltins_config.
  generalize (builtins builtinModules) as bs. intros bs.
  destruct config as [[[[opts|] brest]|] crest]; [destruct opts as [[] rrest]|..]; simpl.
  all: rewrite ?existsb_app, ?matches_builtins; simpl; rewrite ?orb_false_r; try done.
  by destruct (array_includes bs source).
Qed.

Lemma builtins_elem_of (builtinModules : list string) (source : string) :
  source ∈ builtins builtinModules ↔
  source = "electron" ∨
  (source ∈ builtinModules ∧ String.prefix "_" source = false) ∨
  (∃ m, m ∈ builtinModules ∧ String.prefix "_" m = false ∧ source = "node:" +:+ m).
Proof.
  unfold builtins, nativeModules.
  rewrite elem_of_cons, elem_of_app, !list_elem_of_In, in_map_iff.
  setoid_rewrite filter_In. setoid_rewrite negb_true_iff.
  setoid_rewrite <- list_elem_of_In. split.
  - intros [?|[[? ?]|(m & <- & ? & ?)]]; eauto 7.
  - intros [?|[[? ?]|(m & ? & ? & ->)]]; eauto 7.
Qed.

(** Whatever the configuration has for [external] (nothing, a string, a
    regular expression, an array or a function) an id is external after the
    hook exactly when it is one of the builtins (["electron"], a builtin
    module whose name does not start with an underscore, or such a module
    under the ["node:"] prefix) or was external before: the hook adds the
    builtins and loses nothing of what the user configured. *)
Theorem externalBuiltins_adds_builtins_keeps_user (builtinModules : list string)
    (config : UserConfig) (source : string) (importer : option string) (isResolved : bool) :
  externalises (external_of (externalBuiltins_config builtinModules config))
    source importer isResolved = true ↔
  (source = "electron" ∨
   (source ∈ builtinModules ∧ String.prefix "_" source = false) ∨
   (∃ m, m ∈ builtinModules ∧ String.prefix "_" m = false ∧ source = "node:" +:+ m)) ∨
  externalises (external_of config) source importer isResolved = true.
Proof.
  by rewrite externalises_after_hook, orb_true_iff, array_includes_elem_of, builtins_elem_of.
Qed.

(** The internal modules of the runtime, those whose name starts with an
    underscore, are not among the builtins: the hook leaves it to the
    configuration whether such an id is external. *)
Theorem externalBuiltins_skips_underscored (builtinModules : list string)
    (config : UserConfig) (source : string) (importer : option string) (isResolved : bool) :
  String.prefix "_" source = true →
  array_includes (builtins builtinModules) source = false ∧
  externalises (external_of (externalBuiltins_config builtinModules config))
    source importer isResolved
  = externalises (external_of config) source importer isResolved.
Proof.
  intros Hunder.
  assert (array_includes (builtins builtinModules) source = false) as Hnot.
  { apply not_true_is_false. rewrite array_includes_elem_of, builtins_elem_of.
    intros [->|[[_ Hp]|(m & _ & _ & ->)]]; [done|congruence|done]. }
  split; [done|]. by rewrite externalises_after_hook, Hnot.
Qed.

Lemma externalBuiltins_skips_underscored_witness :
  externalises
    (external_of (externalBuiltins_config ["fs"; "_http_agent"; "path"]
                    {| build := None; config_rest := [] |}))
    "_http_agent" None false = false.
Proof.
  rewrite (proj2 (externalBuiltins_skips_underscored ["fs"; "_http_agent"; "path"]
                    {| build := None; config_rest := [] |} "_http_agent" None false eq_refl)).
  reflexivity.
Defined.

(** Running the hook on a configuration it has already been run on changes
    nothing in what is external. *)
Theorem externalBuiltins_twice (builtinModules : list string)
    (config : UserConfig) (source : string) (importer : option string) (isResolved : bool) :
  externalises
    (external_of (externalBuiltins_config builtinModules
                    (externalBuiltins_config builtinModules config)))
    source importer isResolved
  = externalises (external_of (externalBuiltins_config builtinModules config))
      source importer isResolved.
Proof.
  rewrite !externalises_after_hook.
  by destruct (array_includes (builtins builtinModules) source).
Qed.

Example externalBuiltins_sample :
  let config :=
    {| build := Some {| rollupOptions := Some {| external := ExternalString "sqlite3";
                                                 rollup_rest := [] |};
                        build_rest := [("outDir", JsString ".vite/build")] |};
       config_rest := [] |} in
  external_of (externalBuiltins_config ["fs"; "_http_agent"] config)
    = ExternalArray [ItemString "electron"; ItemString "fs"; ItemString "node:fs";
                     ItemString "sqlite3"] ∧
  build_rest <$> build (externalBuiltins_config ["fs"; "_http_agent"] config)
    = Some [("outDir", JsString ".vite/build")].
Proof. by cbv. Qed.

End VitePluginProperties.

Section HotRestartProperties.
Import VitePlugin.

(** ** [hotRestart] *)

Lemma iter_restart (n : nat) (stdin : Stdin) :
  Nat.iter n restart stdin = stdin ++ repeat ("data", "rs") n.
Proof.
  induction n as [|n IH]; simpl; [by rewrite app_nil_r|].
  rewrite IH. unfold restart. rewrite <- app_assoc. f_equal.
  change [("data", "rs")] with (repeat ("data", "rs") 1).
  rewrite <- repeat_app. by replace (n + 1) with (S n) by lia.
Qed.

(** A run in which every effective [closeBundle] past the first one applies
    [f] to the standard input. *)
Lemma run_counts (options : RestartOption) (f : Stdin -> Stdin) :
  match options with
  | RestartFalse => False
  | RestartFunction callback => ∀ stdin, callback restart stdin = (Normal tt, f stdin)
  | RestartOther => ∀ stdin, f stdin = restart stdin
  end →
  ∀ events resolved first stdin,
    ∃ c', run options events {| config := Some resolved; isFirstStart := first |} stdin
            = (Normal tt,
               (c', Nat.iter (development_builds resolved events - (if first then 0 else 1))
                      f stdin)) ∧
          isFirstStart c' = first || negb (development_builds resolved events =? 0).
Proof.
  intros Hf events.
  induction events as [|[_config|] rest IH]; intros resolved first stdin.
  - exists {| config := Some resolved; isFirstStart := first |}.
    simpl. by rewrite orb_false_r.
  - apply IH.
  - cbn [run development_builds]. unfold closeBundle. cbn [config isFirstStart].
    destruct (String.eqb (mode resolved) "production"); [apply IH|].
    destruct first; cbn [negb].
    + assert (∀ c, (match options with
                    | RestartFalse => (Normal tt, (c, stdin))
                    | _ => match options with
                           | RestartFunction callback =>
                               let (r, stdin') := callback restart stdin in (r, (c, stdin'))
                           | _ => (Normal tt, (c, restart stdin))
                           end
                    end) = (Normal tt, (c, f stdin))) as ->.
      { intros c. destruct options as [|callback|]; [done| |]; by rewrite Hf. }
      destruct (IH resolved true (f stdin)) as (c' & -> & Hflag).
      exists c'. split; [|done].
      replace (1 + development_builds resolved rest - 0)
        with (S (development_builds resolved rest - 0)) by lia.
      by rewrite Nat.iter_succ_r.
    + assert (∀ (a b : result unit * (Closure * Stdin)),
                match options with RestartFalse => a | _ => b end = b) as ->.
      { intros a b. by destruct options. }
      destruct (IH resolved true stdin) as (c' & -> & Hflag).
      exists c'. split; [|done].
      by replace (1 + development_builds resolved rest - 1)
        with (development_builds resolved rest - 0) by lia.
Qed.

(** A [closeBundle] that comes before the first [configResolved] throws a
    type error, whatever the option; nothing is emitted and the rest of the
    run does not happen. *)
Theorem closeBundle_before_configResolved (options : RestartOption)
    (rest : list Event) (stdin : Stdin) :
  ∃ message,
    run options (CloseBundle :: rest) hotRestart stdin
    = (Throw (JsError message), (hotRestart, stdin)).
Proof. by eexists. Qed.

(** With the option left unset, the first build that is not a production
    build only arms the plugin, and each later one emits exactly one ["rs"]:
    after any sequence of hook calls that starts with [configResolved], the
    standard input has been made to emit one ["rs"] less than there were
    non-production [closeBundle] calls, and none if there was none. *)
Theorem hotRestart_restarts_after_first_build (resolved : ResolvedConfig)
    (events : list Event) :
  ∃ c', run RestartOther (ConfigResolved resolved :: events) hotRestart []
        = (Normal tt, (c', repeat ("data", "rs") (development_builds resolved events - 1))).
Proof.
  destruct (run_counts RestartOther restart (fun _ => eq_refl) events resolved false [])
    as (c' & Hrun & _).
  exists c'. cbn [run]. unfold configResolved, hotRestart. cbn [isFirstStart].
  by rewrite Hrun, iter_restart.
Qed.

(** With a function as the option, the plugin never restarts on its own: the
    function is handed the [restart] action once for every non-production
    build past the first, and the standard input is what these calls make of
    it. *)
Theorem hotRestart_leaves_it_to_the_callback
    (callback : (Stdin -> Stdin) -> Stdin -> result unit * Stdin)
    (resolved : ResolvedConfig) (events : list Event) (stdin : Stdin) :
  (∀ s, (callback restart s).1 = Normal tt) →
  ∃ c', run (RestartFunction callback) (ConfigResolved resolved :: events) hotRestart stdin
        = (Normal tt,
           (c', Nat.iter (development_builds resolved events - 1)
                  (fun s => (callback restart s).2) stdin)).
Proof.
  intros Hok.
  destruct (run_counts (RestartFunction callback) (fun s => (callback restart s).2))
    with (events := events) (resolved := resolved) (first := false) (stdin := stdin)
    as (c' & Hrun & _).
  { intros s. specialize (Hok s). destruct (callback restart s). simpl in *. by subst. }
  exists c'. cbn [run]. unfold configResolved, hotRestart. cbn [isFirstStart].
  by rewrite Hrun.
Qed.

Lemma hotRestart_leaves_it_to_the_callback_witness :
  ∃ c', run (RestartFunction restart_twice) (ConfigResolved development :: sample_session)
          hotRestart []
        = (Normal tt, (c', repeat ("data", "rs") 4)).
Proof.
  apply (hotRestart_leaves_it_to_the_callback restart_twice development sample_session []).
  intros s. reflexivity.
Defined.

Example hotRestart_sample_session :
  (run RestartOther (ConfigResolved development :: sample_session) hotRestart []).2.2
    = [("data", "rs"); ("data", "rs")] ∧
  development_builds development sample_session = 3.
Proof. by cbv. Qed.

Lemma quiet_run (options : RestartOption) (events : list Event)
    (resolved : ResolvedConfig) (first : bool) (stdin : Stdin) :
  options = RestartFalse ∨ development_builds resolved events = 0 →
  ∃ c', run options events {| config := Some resolved; isFirstStart := first |} stdin
        = (Normal tt, (c', stdin)) ∧
        isFirstStart c' = first.
Proof.
  revert resolved. induction events as [|[_config|] rest IH]; intros resolved Hquiet.
  - by eexists.
  - by apply IH.
  - cbn [run development_builds] in *. unfold closeBundle. cbn [config].
    destruct (String.eqb (mode resolved) "production").
    + by apply IH.
    + destruct Hquiet as [->|Hnone]; [|done]. apply IH. by left.
Qed.

(** Once the plugin has had its configuration resolved, production builds
    and a disabled option neither restart nor arm it: in a run of a fresh
    plugin that starts with [configResolved], and in any run that continues
    from a closure whose [config] is set, when the option is [false] or no
    [closeBundle] of the run happens outside production mode, the run
    completes normally, nothing is emitted, no callback is called and the
    first-start flag is as it was. *)
Theorem hotRestart_never_restarts (options : RestartOption) (events : list Event)
    (resolved : ResolvedConfig) (stdin : Stdin) :
  options = RestartFalse ∨ development_builds resolved events = 0 →
  (∃ c', run options (ConfigResolved resolved :: events) hotRestart stdin
         = (Normal tt, (c', stdin)) ∧
         isFirstStart c' = false) ∧
  (∀ first,
     ∃ c', run options events {| config := Some resolved; isFirstStart := first |} stdin
           = (Normal tt, (c', stdin)) ∧
           isFirstStart c' = first).
Proof.
  intros Hquiet. split.
  - by apply (quiet_run options events resolved false stdin).
  - intros first. by apply quiet_run.
Qed.

Lemma hotRestart_never_restarts_witness :
  ∃ c', run (RestartFunction restart_twice)
          [ConfigResolved production; CloseBundle; CloseBundle;
           ConfigResolved production; CloseBundle]
          hotRestart []
        = (Normal tt, (c', [])) ∧
        isFirstStart c' = false.
Proof.
  apply (hotRestart_never_restarts (RestartFunction restart_twice)
           [CloseBundle; CloseBundle; ConfigResolved production; CloseBundle]
           production []).
  right. reflexivity.
Defined.

End HotRestartProperties.
